(** * AxisOS front-end controller (src/App.tsx)

    A shallow embedding of the stateful core of the [App] component: the
    boot sequencer, the session list, the submission pipeline
    ([executeSend]), the start-up history load ([init]) and the
    observer-event listener effect.

    React state is a record; every handler and every continuation of an
    [async] function is a function on that record.  The suspension points
    of the source ([await]) are explicit task stages, resumed by an event
    that carries what the awaited promise settled with. *)

From Stdlib Require Import List ZArith NArith Bool Lia String Ascii.
Import ListNotations.
Open Scope Z_scope.

(* ====================================================================== *)
(** ** JavaScript strings *)
(* ====================================================================== *)

Module Js.

(** A JS string is a sequence of UTF-16 code units. *)
Definition jsstring := list N.

Definition lit (s : string) : jsstring :=
  map N_of_ascii (list_ascii_of_string s).

Definition eqb (a b : jsstring) : bool :=
  if list_eq_dec N.eq_dec a b then true else false.

(** [s] used as a condition: the empty string is falsy. *)
Definition truthy (s : jsstring) : bool :=
  match s with [] => false | _ :: _ => true end.

(** WhiteSpace and LineTerminator code units of ECMAScript, the ones
    [String.prototype.trim] strips. *)
Definition isWhiteSpace (c : N) : bool :=
  (let m x := N.eqb c x in
   m 9 || m 10 || m 11 || m 12 || m 13 || m 32 || m 160 || m 5760
   || (N.leb 8192 c && N.leb c 8202)
   || m 8232 || m 8233 || m 8239 || m 8287 || m 12288 || m 65279)%N%bool.

Fixpoint trimStart (s : jsstring) : jsstring :=
  match s with
  | [] => []
  | c :: r => if isWhiteSpace c then trimStart r else s
  end.

Definition trimEnd (s : jsstring) : jsstring := rev (trimStart (rev s)).

Definition trim (s : jsstring) : jsstring := trimEnd (trimStart s).

(** [a.includes(x)] on an array of strings. *)
Definition includes (a : list jsstring) (x : jsstring) : bool :=
  existsb (eqb x) a.

(** [new Set(iterable)]: elements are added in iteration order and an
    element already present is not added again; a Set iterates in
    insertion order, which is what [Array.from] reads back. *)
Definition notIn (acc : list jsstring) (y : jsstring) : bool :=
  negb (includes acc y).

Definition setAdd (acc : list jsstring) (x : jsstring) : list jsstring :=
  if includes acc x then acc else acc ++ [x].

Definition newSet (xs : list jsstring) : list jsstring :=
  fold_left setAdd xs [].

(** [Number.prototype.toString] for a natural number, and
    [padStart(2, "0")]. *)
Definition digit (n : N) : N := (48 + n mod 10)%N.

Fixpoint digitsFuel (fuel : nat) (n : N) (acc : jsstring) : jsstring :=
  match fuel with
  | O => acc
  | S f =>
      if (n <? 10)%N then digit n :: acc
      else digitsFuel f (n / 10)%N (digit n :: acc)
  end.

Definition numToString (n : N) : jsstring :=
  digitsFuel (S (N.to_nat (N.log2 n))) n [].

Definition padStart2 (s : jsstring) : jsstring :=
  match s with
  | [] => [48; 48]%N
  | [c] => [48%N; c]
  | _ => s
  end.

End Js.

Import Js.

(* ====================================================================== *)
(** ** Type definitions *)
(* ====================================================================== *)

Record AxisToken := mkToken {
  tok_id : jsstring;
  tok_text : jsstring;
  tok_timestamp : Z
}.

Record InteractionLog := mkLog {
  id : jsstring;
  session_id : jsstring;
  timestamp : Z;
  user_tokens : list AxisToken;
  ai_response : jsstring;
  provider_used : jsstring
}.

Inductive BootStatus := pending | running | ok | failed.

Definition BootStatus_eqb (a b : BootStatus) : bool :=
  match a, b with
  | pending, pending | running, running | ok, ok | failed, failed => true
  | _, _ => false
  end.

Record BootStep := mkStep {
  step_id : Z;
  label : jsstring;
  detail : option jsstring
}.

(** [RenderedStep extends BootStep] *)
Record RenderedStep := mkRendered {
  r_step : BootStep;
  status : BootStatus;
  r_timestamp : jsstring
}.

(* ====================================================================== *)
(** ** Constants *)
(* ====================================================================== *)

Definition BOOT_STEPS : list BootStep :=
  [ mkStep 1 (lit "AxisOS Core") (Some (lit "Initializing meta-OS kernel overlay"));
    mkStep 2 (lit "Gemini Engine") (Some (lit "Logic layer online (reasoning / planning)"));
    mkStep 3 (lit "GPT Engine") (Some (lit "Execution layer online (code / text / tools)"));
    mkStep 4 (lit "Grok Engine") (Some (lit "Monitoring layer online (web / anomaly)"));
    mkStep 5 (lit "Neural Link") (Some (lit "Connecting to Memory Banks..."));
    mkStep 6 (lit "Local Node") (Some (lit "System Ready.")) ].

Definition STEP_INTERVAL_MS : Z := 600.

(** [BOOT_STEPS.length] *)
Definition N_STEPS : Z := Z.of_nat (List.length BOOT_STEPS).

(* ====================================================================== *)
(** ** Helper functions *)
(* ====================================================================== *)

(** The local-time fields a [Date] answers to [getHours], [getMinutes] and
    [getSeconds]. *)
Record DateFields := mkFields { hours : N; minutes : N; seconds : N }.

Definition colon : N := 58%N.

Definition formatBootTime (d : DateFields) : jsstring :=
  let hh := padStart2 (numToString (hours d)) in
  let mm := padStart2 (numToString (minutes d)) in
  let ss := padStart2 (numToString (seconds d)) in
  hh ++ [colon] ++ mm ++ [colon] ++ ss.

Definition NO_TIME : jsstring := lit "--:--:--".

(* ====================================================================== *)
(** ** Component state *)
(* ====================================================================== *)

(** The [useState] cells of [App] that the session and boot logic reads
    and writes. *)
Record AppState := mkApp {
  bootIndex : Z;
  bootCompleted : bool;
  logs : list InteractionLog;
  sessionId : jsstring;
  inputValue : jsstring;
  isThinking : bool
}.

Definition setBoot (i : Z) (c : bool) (s : AppState) : AppState :=
  mkApp i c (logs s) (sessionId s) (inputValue s) (isThinking s).

Definition setLogs (l : list InteractionLog) (s : AppState) : AppState :=
  mkApp (bootIndex s) (bootCompleted s) l (sessionId s) (inputValue s)
        (isThinking s).

Definition setSessionId (x : jsstring) (s : AppState) : AppState :=
  mkApp (bootIndex s) (bootCompleted s) (logs s) x (inputValue s)
        (isThinking s).

Definition setInputValue (v : jsstring) (s : AppState) : AppState :=
  mkApp (bootIndex s) (bootCompleted s) (logs s) (sessionId s) v
        (isThinking s).

Definition setIsThinking (b : bool) (s : AppState) : AppState :=
  mkApp (bootIndex s) (bootCompleted s) (logs s) (sessionId s)
        (inputValue s) b.

(** [useState] initial values. *)
Definition initialApp : AppState := mkApp (-1) false [] [] [] false.

(** What an awaited promise settled with. *)
Inductive Settled (A : Type) :=
| Resolved (a : A)
| Rejected (e : jsstring).
Arguments Resolved {A} a.
Arguments Rejected {A} e.

(** Calls the component makes on its collaborators, in the order made. *)
Inductive Call :=
| InvokeAsk (input sid : jsstring)      (* invoke("ask_axis", {input, sessionId}) *)
| InvokeFetchHistory                    (* invoke("fetch_history") *)
| InvokeDeleteHistory (sid : jsstring)  (* invoke("delete_history", {sessionId}) *)
| Listen (sid : jsstring)               (* listen('axis-observer-event', cb) *)
| Unlisten (k : nat)                    (* the unlisten function of the k-th listen *)
| ConsoleLog (payload : list jsstring)  (* console.log("payload:", {...}) *)
| ConsoleError (e : jsstring)
| PlaySound (file : jsstring).

(* ====================================================================== *)
(** ** Boot sequence *)
(* ====================================================================== *)

(** The updater passed to [setBootIndex] by the interval callback,
    together with the [setBootCompleted(true)] it performs. *)
Definition bootTick (s : AppState) : AppState * list Call :=
  let prev := bootIndex s in
  let next := prev + 1 in
  if next >=? N_STEPS then
    (setBoot prev true s, [PlaySound (lit "startup.mp3")])
  else
    (setBoot next (bootCompleted s) s, [PlaySound (lit "beep.mp3")]).

Fixpoint mapi_from {A B : Type} (f : A -> Z -> B) (i : Z) (l : list A)
  : list B :=
  match l with
  | [] => []
  | x :: r => f x i :: mapi_from f (i + 1) r
  end.

(** [Array.prototype.map] with the index argument. *)
Definition mapi {A B : Type} (f : A -> Z -> B) (l : list A) : list B :=
  mapi_from f 0 l.

Definition stepStatus (bootIndex : Z) (bootCompleted : bool) (index : Z)
  : BootStatus :=
  if index <? bootIndex then ok
  else if (index =? bootIndex) && negb bootCompleted then running
  else if bootCompleted && (index =? N_STEPS - 1) then ok
  else pending.

(** [renderedSteps]; [bootStart] is [bootStart.getTime()] and [fields]
    reads the local-time fields of the [Date] built from a time value. *)
Definition renderedSteps (fields : Z -> DateFields) (bootStart : Z)
    (bootIndex : Z) (bootCompleted : bool) : list RenderedStep :=
  mapi (fun step index =>
          let ts := fields (bootStart + Z.min index bootIndex * STEP_INTERVAL_MS) in
          mkRendered step (stepStatus bootIndex bootCompleted index)
            (if index <=? bootIndex then formatBootTime ts else NO_TIME))
       BOOT_STEPS.

(* ====================================================================== *)
(** ** Session list and transcript *)
(* ====================================================================== *)

Definition sessions (logs : list InteractionLog) (sessionId : jsstring)
  : list jsstring :=
  let ids := newSet (map session_id logs) in
  if truthy sessionId && negb (includes ids sessionId)
  then ids ++ [sessionId]
  else ids.

Definition currentLogs (logs : list InteractionLog) (sessionId : jsstring)
  : list InteractionLog :=
  filter (fun l => Js.eqb (session_id l) sessionId) logs.

(** The session list in the words of the specification: the distinct
    session ids in first-appearance order ... *)
Fixpoint distinct_first (xs : list jsstring) : list jsstring :=
  match xs with
  | [] => []
  | x :: r => x :: filter (fun y => negb (Js.eqb x y)) (distinct_first r)
  end.

(** ... with the active session id appended at the end if it does not
    already appear. *)
Definition listSessions_spec (logs : list InteractionLog) (active : jsstring)
  : list jsstring :=
  let ids := distinct_first (map session_id logs) in
  if includes ids active then ids else ids ++ [active].

(* ====================================================================== *)
(** ** History loading ([init]) *)
(* ====================================================================== *)

(** [history[history.length - 1]] under the guard [history.length > 0]:
    [None] is the branch of an empty history. *)
Definition last_log (history : list InteractionLog) : option InteractionLog :=
  if (0 <? List.length history)%nat
  then nth_error history (List.length history - 1)
  else None.

(** The continuation of [init] after [await invoke("fetch_history")]:
    [uuid] is what [crypto.randomUUID()] answers if it is called. *)
Definition initSettled (r : Settled (list InteractionLog)) (uuid : jsstring)
    (s : AppState) : AppState * list Call :=
  match r with
  | Resolved history =>
      let s1 := setLogs history s in
      match last_log history with
      | Some l => (setSessionId (session_id l) s1, [])
      | None => (setSessionId uuid s1, [])
      end
  | Rejected e => (s, [ConsoleError e])
  end.

Definition handleNewChat (uuid : jsstring) (s : AppState) : AppState :=
  setSessionId uuid s.

(* ====================================================================== *)
(** ** Submission ([executeSend]) *)
(* ====================================================================== *)

(** Where a call of [executeSend] is suspended.  [text] and [sid] are the
    local [text] and the [sessionId] of the closure the call was made
    from. *)
Inductive SendTask :=
| AwaitFrame (text sid : jsstring)  (* await new Promise(requestAnimationFrame) *)
| AwaitAsk                          (* await invoke("ask_axis", ...) *)
| AwaitFetch.                       (* await invoke("fetch_history") *)

(** The synchronous part of [executeSend], up to the first [await].
    [inputValue], [isThinking] and [sessionId] are those of the render the
    handler belongs to; React commits the updates of a keyboard event
    before the next event is dispatched, so they are the current state. *)
Definition executeSend (s : AppState) : AppState * option SendTask :=
  if truthy (trim (inputValue s)) && negb (isThinking s) then
    let text := trim (inputValue s) in
    (setIsThinking true (setInputValue [] s),
     Some (AwaitFrame text (sessionId s)))
  else (s, None).

(** One resumption of a suspended [executeSend]: the state after it, the
    stage it suspends at next ([None]: the call has returned) and the
    calls it made. *)
Definition sendResumed (t : SendTask) (r : Settled (list InteractionLog))
    (s : AppState) : AppState * option SendTask * list Call :=
  match t with
  | AwaitFrame text sid =>
      (s, Some AwaitAsk, [ConsoleLog [text; sid]; InvokeAsk text sid])
  | AwaitAsk =>
      match r with
      | Resolved _ => (s, Some AwaitFetch, [InvokeFetchHistory])
      | Rejected err => (setIsThinking false s, None, [ConsoleError err])
      end
  | AwaitFetch =>
      match r with
      | Resolved updated => (setIsThinking false (setLogs updated s), None, [])
      | Rejected err => (setIsThinking false s, None, [ConsoleError err])
      end
  end.

(* ====================================================================== *)
(** ** Session deletion ([handleDeleteSession]) *)
(* ====================================================================== *)

(** [targetSid] and the [sessionId] of the closure the handler ran in. *)
Inductive DeleteTask :=
| AwaitDelete (targetSid sid : jsstring)
| AwaitDeleteFetch (targetSid sid : jsstring).

Definition handleDeleteSession (targetSid : jsstring) (confirmed : bool)
    (s : AppState) : option DeleteTask * list Call :=
  if confirmed
  then (Some (AwaitDelete targetSid (sessionId s)),
        [ConsoleLog [targetSid]; InvokeDeleteHistory targetSid])
  else (None, []).

Definition deleteResumed (t : DeleteTask) (r : Settled (list InteractionLog))
    (uuid : jsstring) (s : AppState)
  : AppState * option DeleteTask * list Call :=
  match t, r with
  | AwaitDelete tgt sid, Resolved _ =>
      (s, Some (AwaitDeleteFetch tgt sid), [InvokeFetchHistory])
  | AwaitDeleteFetch tgt sid, Resolved updated =>
      let s1 := setLogs updated s in
      (if Js.eqb tgt sid then setSessionId uuid s1 else s1, None, [])
  | _, Rejected err => (s, None, [ConsoleError err])
  end.

(* ====================================================================== *)
(** ** The observer-event listener effect *)
(* ====================================================================== *)

(** One run of the effect with dependency [[sessionId]].  [captured] is
    the [sessionId] of the render the effect ran in, which its callback
    closes over.  [registered]: the promise of [listen] has resolved, the
    callback is installed and the effect's [unlisten] variable is
    assigned.  [cleaned]: the effect's cleanup has run.  [unlistened]:
    the cleanup found [unlisten] assigned and called it. *)
Record Sub := mkSub {
  captured : jsstring;
  registered : bool;
  cleaned : bool;
  unlistened : bool
}.

(** The callback installed by [listen] receives events. *)
Definition live (s : Sub) : bool := registered s && negb (unlistened s).

(** The effect body: [setupListener()] calls [listen], which is pending. *)
Definition setupListener (sid : jsstring) : Sub := mkSub sid false false false.

(** The cleanup function: [if (unlisten) unlisten();]. *)
Definition cleanupListener (s : Sub) : Sub :=
  if registered s
  then mkSub (captured s) (registered s) true true
  else mkSub (captured s) (registered s) true false.

(** [unlisten = await listen(...)] resumes: the assignment happens whether
    or not the cleanup has already run. *)
Definition listenResolved (s : Sub) : Sub :=
  mkSub (captured s) true (cleaned s) (unlistened s).

(** The callback of the listener: the log it builds.  [uuid] and [now]
    are what [crypto.randomUUID()] and [Date.now()] answer. *)
Definition newMessage (sessionId payload uuid : jsstring) (now : Z)
  : InteractionLog :=
  mkLog uuid sessionId now [] payload (lit "Observer").

(** [setLogs(prev => [...prev, newMessage])] *)
Definition observerCallback (captured payload uuid : jsstring) (now : Z)
    (s : AppState) : AppState :=
  setLogs (logs s ++ [newMessage captured payload uuid now]) s.

Fixpoint updLast {A : Type} (f : A -> A) (l : list A) : list A :=
  match l with
  | [] => []
  | [x] => [f x]
  | x :: r => x :: updLast f r
  end.

Fixpoint updNth {A : Type} (f : A -> A) (k : nat) (l : list A) {struct l}
  : list A :=
  match l, k with
  | [], _ => []
  | x :: r, O => f x :: r
  | x :: r, S k' => x :: updNth f k' r
  end.

Fixpoint removeNth {A : Type} (k : nat) (l : list A) {struct l} : list A :=
  match l, k with
  | [], _ => []
  | _ :: r, O => r
  | x :: r, S k' => x :: removeNth k' r
  end.

(* ====================================================================== *)
(** ** The running application *)
(* ====================================================================== *)

(** The component state together with what is outstanding around it:
    suspended [async] calls, the runs of the listener effect (oldest
    first; the last one is the current run) and the calls made so far. *)
Record World := mkWorld {
  app : AppState;
  sends : list SendTask;
  deletes : list DeleteTask;
  initPending : bool;
  subs : list Sub;
  calls : list Call
}.

Definition withApp (a : AppState) (cs : list Call) (w : World) : World :=
  mkWorld a (sends w) (deletes w) (initPending w) (subs w) (calls w ++ cs).

(** After a render in which [sessionId] differs from the previous one the
    listener effect is re-run: cleanup of the current run, then the body
    again.  With an unchanged [sessionId] nothing happens. *)
Definition commitEffects (before : jsstring) (w : World) : World :=
  let sid := sessionId (app w) in
  if Js.eqb before sid then w
  else
    let k := (List.length (subs w) - 1)%nat in
    let un := match nth_error (subs w) k with
              | Some s => if registered s then [Unlisten k] else []
              | None => []
              end in
    mkWorld (app w) (sends w) (deletes w) (initPending w)
            (updLast cleanupListener (subs w) ++ [setupListener sid])
            (calls w ++ un ++ [Listen sid]).

(** Delivery of one event of the channel to every installed callback. *)
Fixpoint deliver (ss : list Sub) (payload : jsstring) (now : Z)
    (uuid : nat -> jsstring) (j : nat) (a : AppState)
  : AppState * list Call :=
  match ss with
  | [] => (a, [])
  | s :: r =>
      if live s then
        let a1 := observerCallback (captured s) payload (uuid j) now a in
        let '(a2, cs) := deliver r payload now uuid (S j) a1 in
        (a2, PlaySound (lit "beep.mp3") :: cs)
      else deliver r payload now uuid j a
  end.

Inductive Event :=
| Tick                                  (* the boot interval fires *)
| InitSettled (r : Settled (list InteractionLog)) (uuid : jsstring)
| Typed (v : jsstring)                  (* onChange of the textarea *)
| ExecuteSend                           (* Enter, not composing, no Shift *)
| SendResumed (k : nat) (r : Settled (list InteractionLog))
| NewChat (uuid : jsstring)             (* "+ Initialize New Thread" *)
| SelectSession (sid : jsstring)        (* click on a thread item *)
| DeleteClicked (targetSid : jsstring) (confirmed : bool)
| DeleteResumed (k : nat) (r : Settled (list InteractionLog)) (uuid : jsstring)
| ListenResolved (k : nat)              (* the promise of the k-th listen *)
| ObserverEvent (payload : jsstring) (now : Z) (uuid : nat -> jsstring).

(** The state right after the first commit: the effects have run, [init]
    awaits [fetch_history] and the first [listen] is pending. *)
Definition initialWorld : World :=
  mkWorld initialApp [] [] true [setupListener []]
          [InvokeFetchHistory; Listen []].

Definition setTask {A : Type} (k : nat) (t : option A) (l : list A) : list A :=
  match t with
  | Some t' => updNth (fun _ => t') k l
  | None => removeNth k l
  end.

(** One task of the event loop.  An event that cannot occur in the state
    (the interval after it was cleared, input into the disabled textarea,
    a promise that is not outstanding, a thread item that is not shown)
    leaves the state as it is. *)
Definition step (e : Event) (w : World) : World :=
  let a := app w in
  match e with
  | Tick =>
      if bootCompleted a then w
      else let '(a', cs) := bootTick a in withApp a' cs w
  | InitSettled r uuid =>
      if initPending w then
        let '(a', cs) := initSettled r uuid a in
        commitEffects (sessionId a)
          (mkWorld a' (sends w) (deletes w) false (subs w) (calls w ++ cs))
      else w
  | Typed v =>
      if isThinking a then w else withApp (setInputValue v a) [] w
  | ExecuteSend =>
      match executeSend a with
      | (a', Some t) =>
          mkWorld a' (sends w ++ [t]) (deletes w) (initPending w) (subs w)
                  (calls w)
      | (_, None) => w
      end
  | SendResumed k r =>
      match nth_error (sends w) k with
      | Some t =>
          let '(a', t', cs) := sendResumed t r a in
          mkWorld a' (setTask k t' (sends w)) (deletes w) (initPending w)
                  (subs w) (calls w ++ cs)
      | None => w
      end
  | NewChat uuid =>
      commitEffects (sessionId a) (withApp (handleNewChat uuid a) [] w)
  | SelectSession sid =>
      if includes (sessions (logs a) (sessionId a)) sid
      then commitEffects (sessionId a) (withApp (setSessionId sid a) [] w)
      else w
  | DeleteClicked tgt confirmed =>
      if includes (sessions (logs a) (sessionId a)) tgt then
        match handleDeleteSession tgt confirmed a with
        | (Some t, cs) =>
            mkWorld a (sends w) (deletes w ++ [t]) (initPending w) (subs w)
                    (calls w ++ cs)
        | (None, _) => w
        end
      else w
  | DeleteResumed k r uuid =>
      match nth_error (deletes w) k with
      | Some t =>
          let '(a', t', cs) := deleteResumed t r uuid a in
          commitEffects (sessionId a)
            (mkWorld a' (sends w) (setTask k t' (deletes w)) (initPending w)
                     (subs w) (calls w ++ cs))
      | None => w
      end
  | ListenResolved k =>
      match nth_error (subs w) k with
      | Some s =>
          if registered s then w
          else mkWorld a (sends w) (deletes w) (initPending w)
                       (updNth listenResolved k (subs w)) (calls w)
      | None => w
      end
  | ObserverEvent payload now uuid =>
      let '(a', cs) := deliver (subs w) payload now uuid 0 a in
      withApp a' cs w
  end.

Definition run (es : list Event) (w : World) : World :=
  fold_left (fun w e => step e w) es w.

Definition reachable (w : World) : Prop :=
  exists es, w = run es initialWorld.

(** Number of installed callbacks. *)
Definition liveCount (w : World) : nat := List.length (filter live (subs w)).

(** Runs of the listener effect whose cleanup is over while their
    callback stays installed. *)
Definition leaked (s : Sub) : bool :=
  cleaned s && registered s && negb (unlistened s).

(* ====================================================================== *)
(** ** Measures used in the statements *)
(* ====================================================================== *)

(** Number of interval ticks among the events. *)
Fixpoint ticks (es : list Event) : nat :=
  match es with
  | [] => O
  | Tick :: r => S (ticks r)
  | _ :: r => ticks r
  end.

(** The boot cursor and the completion flag after [k] ticks, in closed
    form. *)
Definition bootAfter (k : nat) : Z * bool :=
  (Z.min (Z.of_nat k) N_STEPS - 1, N_STEPS <? Z.of_nat k).

Definition bootOf (w : World) : Z * bool :=
  (bootIndex (app w), bootCompleted (app w)).

Definition countRunning (rs : list RenderedStep) : nat :=
  List.length (filter (fun r => BootStatus_eqb (status r) running) rs).

(** The logs appended by one delivery, in order. *)
Fixpoint delivered (ss : list Sub) (payload : jsstring) (now : Z)
    (uuid : nat -> jsstring) (j : nat) : list InteractionLog :=
  match ss with
  | [] => []
  | s :: r =>
      if live s
      then newMessage (captured s) payload (uuid j) now
             :: delivered r payload now uuid (S j)
      else delivered r payload now uuid j
  end.

(** The submission discipline: no call of [executeSend] is suspended and
    the busy flag is down, or exactly one is and the flag is up, with the
    input buffer emptied. *)
Definition singleFlight (w : World) : Prop :=
  (sends w = [] /\ isThinking (app w) = false)
  \/ ((exists t, sends w = [t])
      /\ isThinking (app w) = true /\ inputValue (app w) = []).

(** [ask_axis] calls issued and not yet settled. *)
Definition asksInFlight (w : World) : nat :=
  List.length (filter (fun t => match t with AwaitAsk => true | _ => false end)
                      (sends w)).

(** Events that are not a resumption of a suspended [executeSend]. *)
Definition otherEvent (e : Event) : bool :=
  match e with SendResumed _ _ => false | _ => true end.

Definition isFetchHistory (c : Call) : bool :=
  match c with InvokeFetchHistory => true | _ => false end.

Definition isListen (c : Call) : bool :=
  match c with Listen _ => true | _ => false end.

Definition isUnlisten (c : Call) : bool :=
  match c with Unlisten _ => true | _ => false end.

(** A run of the listener effect that is over and has removed its
    callback. *)
Definition retired (s : Sub) : bool :=
  registered s && cleaned s && unlistened s.

(** The listener effect is in order for the session id [sid]: every run
    but the current one is retired, and the current one closed over
    [sid]. *)
Definition orderlyAt (sid : jsstring) (ss : list Sub) : Prop :=
  exists older cur,
    ss = older ++ [cur]
    /\ forallb retired older = true
    /\ cleaned cur = false /\ unlistened cur = false
    /\ captured cur = sid.

Definition orderly (w : World) : Prop :=
  orderlyAt (sessionId (app w)) (subs w).

(** The promise of the current run's [listen] has resolved. *)
Definition currentRegistered (ss : list Sub) : bool :=
  match rev ss with
  | s :: _ => registered s
  | [] => false
  end.

(** Every event that changes the active session id finds the current
    [listen] resolved. *)
Fixpoint unhurried (es : list Event) (w : World) : Prop :=
  match es with
  | [] => True
  | e :: r =>
      (currentRegistered (subs w) = true
       \/ sessionId (app (step e w)) = sessionId (app w))
      /\ unhurried r (step e w)
  end.

(** The start-up race of the listener effect: [fetch_history] resolves,
    and with it the active session id changes, before the promise of the
    first [listen] has resolved; then both [listen] promises resolve. *)
Definition earlySessionChange : list Event :=
  [ InitSettled (Resolved [mkLog (lit "a") (lit "s1") 1 [] (lit "hi") (lit "gpt")])
                (lit "fresh");
    ListenResolved 0;
    ListenResolved 1 ].

(* ====================================================================== *)
(** ** Keyboard handling ([handleKeyDown]) *)
(* ====================================================================== *)

(** [handleKeyDown]: the state after it, the submission it starts, and
    whether [e.preventDefault()] was called.  [isComposing] is the
    [useState] flag set by the composition events of the textarea. *)
Definition handleKeyDown (key : jsstring) (shiftKey isComposing : bool)
    (s : AppState) : AppState * option SendTask * bool :=
  if Js.eqb key (lit "Enter") then
    if isComposing || shiftKey then (s, None, false)
    else let '(s', t) := executeSend s in (s', t, true)
  else (s, None, false).

(* ====================================================================== *)
(** ** Measures used in the further statements *)
(* ====================================================================== *)

(** Two decimal digits, the tens first. *)
Definition twoDigits (n : N) : jsstring :=
  [(48 + n / 10)%N; (48 + n mod 10)%N].

(** The fields of a valid local time. *)
Definition validFields (d : DateFields) : Prop :=
  (hours d < 24)%N /\ (minutes d < 60)%N /\ (seconds d < 60)%N.

(** Sum of the transcript lengths over a list of session ids. *)
Fixpoint transcriptTotal (ls : list InteractionLog) (sids : list jsstring)
  : nat :=
  match sids with
  | [] => O
  | sid :: r => (List.length (currentLogs ls sid) + transcriptTotal ls r)%nat
  end.

(** A text is fit to be sent: not empty, and [trim] leaves it as it is. *)
Definition trimmed (t : jsstring) : bool :=
  truthy t && Js.eqb (trim t) t.

Definition askOK (c : Call) : bool :=
  match c with InvokeAsk t _ => trimmed t | _ => true end.

Definition taskOK (t : SendTask) : bool :=
  match t with AwaitFrame text _ => trimmed text | _ => true end.

Definition isStartupCue (c : Call) : bool :=
  match c with PlaySound f => Js.eqb f (lit "startup.mp3") | _ => false end.

Definition isDeleteCall (c : Call) : bool :=
  match c with InvokeDeleteHistory _ => true | _ => false end.

Definition isAskCall (c : Call) : bool :=
  match c with InvokeAsk _ _ => true | _ => false end.

(** Events that are neither a confirmed delete click nor a resumption of
    a suspended [handleDeleteSession]. *)
Definition notDeleteEvent (e : Event) : bool :=
  match e with
  | DeleteClicked _ true | DeleteResumed _ _ _ => false
  | _ => true
  end.


(* ====================================================================== *)
(** ** View mode, vitals polling and caret *)
(* ====================================================================== *)

Inductive ViewMode := bootView | chatView.

(** Calls of the vitals effect. *)
Inductive ShellCall :=
| InvokeVitalStats                 (* invoke("get_vital_stats") *)
| VitalErr (e : jsstring).         (* console.error("Vital Err:", e) *)

(** The remaining [useState] cells and timers of [App], around the state
    modelled above.  [Stats] is the type of the value [get_vital_stats]
    resolves with.  [transitionArmed]: the 1500 ms timeout is pending.
    [vitalsTimer]: the 2000 ms interval is running.  [vitalsPending]:
    calls of [fetchStats] awaiting their [invoke]. *)
Record Shell (Stats : Type) := mkShell {
  base : World;
  viewMode : ViewMode;
  stats : option Stats;
  caretVisible : bool;
  transitionArmed : bool;
  vitalsTimer : bool;
  vitalsPending : nat;
  shellCalls : list ShellCall
}.
Arguments mkShell {Stats}.
Arguments base {Stats}.
Arguments viewMode {Stats}.
Arguments stats {Stats}.
Arguments caretVisible {Stats}.
Arguments transitionArmed {Stats}.
Arguments vitalsTimer {Stats}.
Arguments vitalsPending {Stats}.
Arguments shellCalls {Stats}.

Inductive ShellEvent (Stats : Type) :=
| Base (e : Event)                    (* an event of the core *)
| TransitionFired                     (* the 1500 ms timeout *)
| VitalsTick                          (* the 2000 ms interval *)
| VitalsSettled (r : Settled Stats)   (* a get_vital_stats promise *)
| Blink.                              (* the caret interval *)
Arguments Base {Stats}.
Arguments TransitionFired {Stats}.
Arguments VitalsTick {Stats}.
Arguments VitalsSettled {Stats}.
Arguments Blink {Stats}.

Definition initialShell {Stats : Type} : Shell Stats :=
  mkShell initialWorld bootView None true false false O [].

(** One event of the shell.  When [bootCompleted] turns true the two
    effects that depend on it re-run: the boot effect arms the transition
    timeout, the vitals effect calls [fetchStats] once and starts its
    interval. *)
Definition shellStep {Stats : Type} (e : ShellEvent Stats) (x : Shell Stats)
  : Shell Stats :=
  match e with
  | Base ev =>
      let b' := step ev (base x) in
      if negb (bootCompleted (app (base x))) && bootCompleted (app b') then
        mkShell b' (viewMode x) (stats x) (caretVisible x) true true
                (S (vitalsPending x)) (shellCalls x ++ [InvokeVitalStats])
      else
        mkShell b' (viewMode x) (stats x) (caretVisible x)
                (transitionArmed x) (vitalsTimer x) (vitalsPending x)
                (shellCalls x)
  | TransitionFired =>
      if transitionArmed x then
        mkShell (base x) chatView (stats x) (caretVisible x) false
                (vitalsTimer x) (vitalsPending x) (shellCalls x)
      else x
  | VitalsTick =>
      if vitalsTimer x then
        mkShell (base x) (viewMode x) (stats x) (caretVisible x)
                (transitionArmed x) (vitalsTimer x) (S (vitalsPending x))
                (shellCalls x ++ [InvokeVitalStats])
      else x
  | VitalsSettled r =>
      match vitalsPending x with
      | O => x
      | S n =>
          match r with
          | Resolved data =>
              mkShell (base x) (viewMode x) (Some data) (caretVisible x)
                      (transitionArmed x) (vitalsTimer x) n (shellCalls x)
          | Rejected err =>
              mkShell (base x) (viewMode x) (stats x) (caretVisible x)
                      (transitionArmed x) (vitalsTimer x) n
                      (shellCalls x ++ [VitalErr err])
          end
      end
  | Blink =>
      mkShell (base x) (viewMode x) (stats x) (negb (caretVisible x))
              (transitionArmed x) (vitalsTimer x) (vitalsPending x)
              (shellCalls x)
  end.

Definition shellRun {Stats : Type} (es : list (ShellEvent Stats))
    (x : Shell Stats) : Shell Stats :=
  fold_left (fun x e => shellStep e x) es x.

Fixpoint blinks {Stats : Type} (es : list (ShellEvent Stats)) : nat :=
  match es with
  | [] => O
  | Blink :: r => S (blinks r)
  | _ :: r => blinks r
  end.

(* ====================================================================== *)
(** ** The commander store ([useOSStore]) *)
(* ====================================================================== *)

Module OSStore.

Inductive AIProvider := gpt | gemini | grok | claude | nemotron | sd | sora.

Inductive SystemStatus := IDLE | THINKING | EXECUTING | ERROR.

(** [OSState]; [Log] is the type of an interaction log of the store. *)
Record OSState (Log : Type) := mkStore {
  activeProvider : AIProvider;
  isProcessing : bool;
  systemStatus : SystemStatus;
  storeLogs : list Log
}.
Arguments mkStore {Log}.
Arguments activeProvider {Log}.
Arguments isProcessing {Log}.
Arguments systemStatus {Log}.
Arguments storeLogs {Log}.

Definition initialStore {Log : Type} : OSState Log :=
  mkStore gemini false IDLE [].

Definition busyStatus (s : SystemStatus) : bool :=
  match s with THINKING | EXECUTING => true | _ => false end.

(** [set] merges the given fields into the state. *)
Definition setStatus {Log : Type} (status : SystemStatus) (st : OSState Log)
  : OSState Log :=
  mkStore (activeProvider st) (busyStatus status) status (storeLogs st).

Definition setProvider {Log : Type} (provider : AIProvider)
    (st : OSState Log) : OSState Log :=
  mkStore provider (isProcessing st) (systemStatus st) (storeLogs st).

Definition addLog {Log : Type} (log : Log) (st : OSState Log) : OSState Log :=
  mkStore (activeProvider st) (isProcessing st) (systemStatus st)
          (storeLogs st ++ [log]).

Definition clearLogs {Log : Type} (st : OSState Log) : OSState Log :=
  mkStore (activeProvider st) (isProcessing st) (systemStatus st) [].

Inductive Action (Log : Type) :=
| SetStatus (status : SystemStatus)
| SetProvider (provider : AIProvider)
| AddLog (log : Log)
| ClearLogs.
Arguments SetStatus {Log}.
Arguments SetProvider {Log}.
Arguments AddLog {Log}.
Arguments ClearLogs {Log}.

Definition act {Log : Type} (a : Action Log) (st : OSState Log)
  : OSState Log :=
  match a with
  | SetStatus s => setStatus s st
  | SetProvider p => setProvider p st
  | AddLog l => addLog l st
  | ClearLogs => clearLogs st
  end.

Definition acts {Log : Type} (l : list (Action Log)) (st : OSState Log)
  : OSState Log :=
  fold_left (fun st a => act a st) l st.

(** The logs added by a list of actions, in order. *)
Fixpoint added {Log : Type} (l : list (Action Log)) : list Log :=
  match l with
  | [] => []
  | AddLog x :: r => x :: added r
  | _ :: r => added r
  end.

Definition isClear {Log : Type} (a : Action Log) : bool :=
  match a with ClearLogs => true | _ => false end.

(** The last status set by a list of actions, if any. *)
Fixpoint lastStatus {Log : Type} (l : list (Action Log))
    (d : SystemStatus) : SystemStatus :=
  match l with
  | [] => d
  | SetStatus s :: r => lastStatus r s
  | _ :: r => lastStatus r d
  end.

End OSStore.

(** A string that does not start, or does not end, with white space. *)
Definition startsClean (s : jsstring) : bool :=
  match s with
  | [] => true
  | c :: _ => negb (isWhiteSpace c)
  end.

Definition endsClean (s : jsstring) : bool := startsClean (rev s).

Definition observerLog (payload : jsstring) (now : Z) (l : InteractionLog)
  : Prop :=
  user_tokens l = [] /\ provider_used l = lit "Observer"
  /\ ai_response l = payload /\ timestamp l = now.

(** Calls that are neither the start-up cue, nor an ask, nor a delete. *)
Definition quiet (c : Call) : bool :=
  negb (isStartupCue c) && negb (isAskCall c) && negb (isDeleteCall c).

(** The calls of one event that are not [quiet], with the event and the
    state they come from. *)
Definition loudCalls (e : Event) (w : World) (cs : list Call) : Prop :=
  match e with
  | Tick =>
      cs = [PlaySound (lit "startup.mp3")]
      /\ bootCompleted (app w) = false
      /\ bootCompleted (app (step Tick w)) = true
  | SendResumed k _ =>
      exists text sid,
        nth_error (sends w) k = Some (AwaitFrame text sid)
        /\ cs = [ConsoleLog [text; sid]; InvokeAsk text sid]
  | DeleteClicked tgt true =>
      includes (sessions (logs (app w)) (sessionId (app w))) tgt = true
      /\ cs = [ConsoleLog [tgt]; InvokeDeleteHistory tgt]
  | _ => False
  end.

Definition asksIssued (w : World) : nat :=
  List.length (filter isAskCall (calls w)).

Definition framesPending (w : World) : nat :=
  List.length
    (filter (fun t => match t with AwaitFrame _ _ => true | _ => false end)
            (sends w)).

(** Number of [executeSend] calls among the events. *)
Fixpoint execs (es : list Event) : nat :=
  match es with
  | [] => O
  | ExecuteSend :: r => S (execs r)
  | _ :: r => execs r
  end.

Definition cueCount (w : World) : nat :=
  List.length (filter isStartupCue (calls w)).

(** What holds of the ask calls after events with [n] calls of
    [executeSend] among them. *)
Definition askInv (n : nat) (w : World) : Prop :=
  singleFlight w
  /\ forallb askOK (calls w) = true
  /\ forallb taskOK (sends w) = true
  /\ (asksIssued w + framesPending w <= n)%nat.

Definition notConfirmedClick (e : Event) : bool :=
  match e with DeleteClicked _ true => false | _ => true end.

(** What holds of the shell in every state, with [c] the completion flag
    of the boot sequence. *)
Definition shellInv {Stats : Type} (x : Shell Stats) : Prop :=
  let c := bootCompleted (app (base x)) in
  vitalsTimer x = c
  /\ (c = false ->
      viewMode x = bootView /\ transitionArmed x = false
      /\ stats x = None /\ shellCalls x = [] /\ vitalsPending x = O)
  /\ (c = true ->
      ((transitionArmed x = true /\ viewMode x = bootView)
       \/ (transitionArmed x = false /\ viewMode x = chatView))
      /\ In InvokeVitalStats (shellCalls x)).

(* ====================================================================== *)
(** * Properties *)
(* ====================================================================== *)

(** ** Strings and sets *)

Module JsFacts.

Lemma eqb_eq (a b : jsstring) : Js.eqb a b = true <-> a = b.
Proof.
  unfold Js.eqb. destruct (list_eq_dec N.eq_dec a b); split; congruence.
Qed.

Lemma eqb_refl (a : jsstring) : Js.eqb a a = true.
Proof. apply eqb_eq. reflexivity. Qed.

Lemma eqb_neq (a b : jsstring) : Js.eqb a b = false <-> a <> b.
Proof.
  unfold Js.eqb. destruct (list_eq_dec N.eq_dec a b); split; congruence.
Qed.

Lemma eqb_sym (a b : jsstring) : Js.eqb a b = Js.eqb b a.
Proof.
  destruct (Js.eqb b a) eqn:E.
  - apply eqb_eq in E. subst. apply eqb_refl.
  - apply eqb_neq in E. apply eqb_neq. congruence.
Qed.

Lemma truthy_true (s : jsstring) : truthy s = true <-> s <> [].
Proof. destruct s; simpl; split; congruence. Qed.

Lemma includes_In (a : list jsstring) (x : jsstring) :
  includes a x = true <-> In x a.
Proof.
  unfold includes. rewrite existsb_exists. split.
  - intros [y [Hy E]]. apply eqb_eq in E. subst. exact Hy.
  - intros H. exists x. split; [exact H | apply eqb_refl].
Qed.

Lemma includes_app (a b : list jsstring) (x : jsstring) :
  includes (a ++ b) x = includes a x || includes b x.
Proof. unfold includes. apply existsb_app. Qed.

(** *** [trim] *)

Lemma trimStart_nil (s : jsstring) :
  trimStart s = [] <-> forallb isWhiteSpace s = true.
Proof.
  induction s as [|c r IH]; simpl.
  - tauto.
  - destruct (isWhiteSpace c); simpl.
    + exact IH.
    + split; discriminate.
Qed.

Lemma trimStart_head (s : jsstring) (c : N) (r : jsstring) :
  trimStart s = c :: r -> isWhiteSpace c = false.
Proof.
  induction s as [|d t IH]; simpl.
  - discriminate.
  - destruct (isWhiteSpace d) eqn:E.
    + exact IH.
    + intros H. injection H as -> _. exact E.
Qed.

Lemma forallb_rev {A : Type} (p : A -> bool) (l : list A) :
  forallb p (rev l) = forallb p l.
Proof.
  induction l as [|x r IH]; simpl.
  - reflexivity.
  - rewrite forallb_app, IH. simpl. rewrite andb_true_r. apply andb_comm.
Qed.

(** [trim] answers the empty string exactly on the strings made of
    white space only (the empty string among them). *)
Lemma trim_nil (s : jsstring) :
  trim s = [] <-> forallb isWhiteSpace s = true.
Proof.
  rewrite <- trimStart_nil. unfold trim, trimEnd. split.
  - intros H. destruct (trimStart s) as [|c r] eqn:E; [reflexivity|].
    exfalso. apply trimStart_head in E.
    assert (H1 : trimStart (rev (c :: r)) = []).
    { rewrite <- (rev_involutive (trimStart _)), H. reflexivity. }
    apply trimStart_nil in H1. rewrite forallb_rev in H1. simpl in H1.
    rewrite E in H1. discriminate.
  - intros ->. reflexivity.
Qed.

Lemma truthy_trim_false (s : jsstring) :
  truthy (trim s) = false <-> forallb isWhiteSpace s = true.
Proof.
  rewrite <- trim_nil. destruct (trim s); simpl; split; congruence.
Qed.

(** *** [new Set] *)

Lemma filter_notIn_drop (acc : list jsstring) (x : jsstring)
    (l : list jsstring) :
  includes acc x = true ->
  filter (notIn acc) (filter (fun y => negb (Js.eqb x y)) l)
  = filter (notIn acc) l.
Proof.
  intros Hx. induction l as [|y r IH]; simpl; [reflexivity|].
  destruct (Js.eqb x y) eqn:E; simpl.
  - apply eqb_eq in E. subst y. unfold notIn at 2. rewrite Hx. simpl.
    exact IH.
  - destruct (notIn acc y); rewrite IH; reflexivity.
Qed.

Lemma filter_notIn_snoc (acc : list jsstring) (x : jsstring)
    (l : list jsstring) :
  filter (notIn (acc ++ [x])) l
  = filter (notIn acc) (filter (fun y => negb (Js.eqb x y)) l).
Proof.
  induction l as [|y r IH]; simpl; [reflexivity|].
  unfold notIn at 1. rewrite includes_app. simpl.
  rewrite orb_false_r, negb_orb, (eqb_sym y x).
  destruct (Js.eqb x y); simpl.
  - rewrite andb_false_r. exact IH.
  - rewrite andb_true_r. fold (notIn acc y).
    destruct (notIn acc y); rewrite IH; reflexivity.
Qed.

Lemma fold_setAdd (xs acc : list jsstring) :
  fold_left setAdd xs acc = acc ++ filter (notIn acc) (distinct_first xs).
Proof.
  revert acc. induction xs as [|x r IH]; intros acc; simpl.
  - symmetry. apply app_nil_r.
  - rewrite IH. unfold setAdd, notIn at 2.
    destruct (includes acc x) eqn:E; simpl.
    + rewrite filter_notIn_drop by exact E. reflexivity.
    + rewrite <- app_assoc. simpl. rewrite filter_notIn_snoc. reflexivity.
Qed.

(** The array read back from the Set is the list of distinct elements
    in first-appearance order. *)
Lemma newSet_distinct_first (xs : list jsstring) :
  newSet xs = distinct_first xs.
Proof.
  unfold newSet. rewrite fold_setAdd. simpl.
  induction (distinct_first xs) as [|y r IH]; simpl; [reflexivity|].
  f_equal. exact IH.
Qed.

Lemma distinct_first_In (xs : list jsstring) (x : jsstring) :
  In x (distinct_first xs) <-> In x xs.
Proof.
  induction xs as [|y r IH]; simpl; [tauto|].
  rewrite filter_In, IH. destruct (Js.eqb y x) eqn:E.
  - apply eqb_eq in E. subst. simpl. intuition congruence.
  - apply eqb_neq in E. simpl. intuition congruence.
Qed.

Lemma NoDup_filter {A : Type} (p : A -> bool) (l : list A) :
  NoDup l -> NoDup (filter p l).
Proof.
  induction 1 as [|x l Hx Hl IH]; simpl; [constructor|].
  destruct (p x); [constructor|]; auto.
  rewrite filter_In. tauto.
Qed.

Lemma distinct_first_NoDup (xs : list jsstring) : NoDup (distinct_first xs).
Proof.
  induction xs as [|y r IH]; simpl; constructor.
  - rewrite filter_In, eqb_refl. simpl. intros [_ H]. discriminate.
  - apply NoDup_filter. exact IH.
Qed.

End JsFacts.

Import JsFacts.

(* ====================================================================== *)
(** ** Session list *)
(* ====================================================================== *)

Lemma sessions_nonempty_active (ls : list InteractionLog) (sid : jsstring) :
  sid <> [] -> sessions ls sid = listSessions_spec ls sid.
Proof.
  intros Hne. unfold sessions, listSessions_spec.
  rewrite newSet_distinct_first.
  apply truthy_true in Hne. rewrite Hne. simpl.
  destruct (includes _ sid); reflexivity.
Qed.

Lemma sessions_empty_active (ls : list InteractionLog) :
  sessions ls [] = distinct_first (map session_id ls).
Proof. unfold sessions. simpl. apply newSet_distinct_first. Qed.

Lemma listSessions_spec_In (ls : list InteractionLog) (sid : jsstring) :
  In sid (listSessions_spec ls sid).
Proof.
  unfold listSessions_spec.
  destruct (includes _ sid) eqn:E.
  - apply includes_In. exact E.
  - apply in_or_app. right. left. reflexivity.
Qed.

(** C4, as the specification words it, fails in the state the application
    starts in: no logs, the active session id still the empty string of
    [useState("")], and the active id is not in the session list. *)
Lemma sessions_initial_misses_active :
  ~ In (sessionId initialApp)
       (sessions (logs initialApp) (sessionId initialApp))
  /\ sessions (logs initialApp) (sessionId initialApp)
     <> listSessions_spec (logs initialApp) (sessionId initialApp).
Proof.
  split.
  - simpl. tauto.
  - vm_compute. discriminate.
Qed.

(** C4 (amended): for every log collection and every non-empty active
    session id, [sessions] is the list of distinct session ids of the logs
    in first-appearance order with the active id appended at the end if it
    does not already appear, so a non-empty active id is always a member,
    also with zero logs for it; with the empty string as active id (the
    state before the history has loaded) nothing is appended. *)
Theorem sessions_lists_active :
  (forall (ls : list InteractionLog) (sid : jsstring),
      sid <> [] ->
      sessions ls sid = listSessions_spec ls sid
      /\ In sid (sessions ls sid)
      /\ NoDup (sessions ls sid))
  /\ (forall ls : list InteractionLog,
         sessions ls [] = distinct_first (map session_id ls)).
Proof.
  split.
  - intros ls sid Hne. rewrite (sessions_nonempty_active ls sid Hne).
    split; [reflexivity|]. split; [apply listSessions_spec_In|].
    unfold listSessions_spec.
    destruct (includes _ sid) eqn:E.
    + apply distinct_first_NoDup.
    + apply NoDup_app.
      * apply distinct_first_NoDup.
      * constructor; [simpl; tauto | constructor].
      * intros x Hx [<- | []].
        apply includes_In in Hx. congruence.
  - apply sessions_empty_active.
Qed.

Lemma sessions_lists_active_witness :
  lit "s9" <> []
  /\ sessions [mkLog (lit "a") (lit "s1") 0 [] [] []] (lit "s9")
     = [lit "s1"; lit "s9"]
  /\ In (lit "s9")
        (sessions [mkLog (lit "a") (lit "s1") 0 [] [] []] (lit "s9")).
Proof.
  split; [discriminate|].
  destruct sessions_lists_active as [H _].
  destruct (H [mkLog (lit "a") (lit "s1") 0 [] [] []] (lit "s9"))
    as [E [I _]]; [discriminate|].
  split; [rewrite E; reflexivity | exact I].
Defined.

(* ====================================================================== *)
(** ** History loading *)
(* ====================================================================== *)

Lemma last_log_last (h : list InteractionLog) (d : InteractionLog) :
  h <> [] -> last_log h = Some (last h d).
Proof.
  intros Hne. unfold last_log.
  destruct h as [|x r]; [congruence|]. clear Hne.
  change (0 <? List.length (x :: r))%nat with true. cbv iota.
  replace (List.length (x :: r) - 1)%nat with (List.length r)
    by (simpl; lia).
  revert x. induction r as [|y r IH]; intros x.
  - reflexivity.
  - change (nth_error (x :: y :: r) (List.length (y :: r)))
      with (nth_error (y :: r) (List.length r)).
    rewrite IH. reflexivity.
Qed.

Lemma last_log_nil : last_log [] = None.
Proof. reflexivity. Qed.

Lemma app_commitEffects (before : jsstring) (w : World) :
  app (commitEffects before w) = app w.
Proof. unfold commitEffects. destruct (Js.eqb _ _); reflexivity. Qed.

Lemma app_withApp (a : AppState) (cs : list Call) (w : World) :
  app (withApp a cs w) = a.
Proof. reflexivity. Qed.

Lemma step_init_app (w : World) (r : Settled (list InteractionLog))
    (uuid : jsstring) :
  initPending w = true ->
  app (step (InitSettled r uuid) w) = fst (initSettled r uuid (app w)).
Proof.
  intros Hp. unfold step. rewrite Hp.
  destruct (initSettled r uuid (app w)) as [a1 cs].
  rewrite app_commitEffects. reflexivity.
Qed.

(** C3: when [fetch_history] resolves, [init] replaces the whole log
    collection with the result; a non-empty result makes the session id of
    its last log the active one, an empty result makes the freshly
    generated id the active one.  For a result of two logs with session
    ids s1 and s2 the active id is s2 and the session list is [s1, s2]. *)
Theorem init_loads_history :
  forall (w : World) (history : list InteractionLog) (uuid : jsstring),
    initPending w = true ->
    let a' := app (step (InitSettled (Resolved history) uuid) w) in
    logs a' = history
    /\ (forall d, history <> [] -> sessionId a' = session_id (last history d))
    /\ (history = [] -> sessionId a' = uuid)
    /\ (forall la lb,
           history = [la; lb] ->
           session_id la = lit "s1" -> session_id lb = lit "s2" ->
           sessionId a' = lit "s2"
           /\ sessions (logs a') (sessionId a') = [lit "s1"; lit "s2"]).
Proof.
  intros w history uuid Hp a'. subst a'.
  rewrite (step_init_app w _ uuid Hp).
  destruct (initSettled (Resolved history) uuid (app w)) as [a1 cs] eqn:E.
  simpl. unfold initSettled in E.
  assert (Hlogs : logs a1 = history).
  { destruct (last_log history); injection E as <- _; reflexivity. }
  split; [exact Hlogs|]. split; [|split].
  - intros d Hne. rewrite (last_log_last history d Hne) in E.
    injection E as <- _. reflexivity.
  - intros ->. rewrite last_log_nil in E. injection E as <- _. reflexivity.
  - intros la lb -> Ha Hb. rewrite Hlogs.
    change (last_log [la; lb]) with (Some lb) in E.
    injection E as <- _. simpl. rewrite Hb. split; [reflexivity|].
    unfold sessions. simpl. rewrite Ha, Hb. reflexivity.
Qed.

Lemma init_loads_history_witness :
  initPending initialWorld = true
  /\ sessionId (app (step (InitSettled
                       (Resolved [mkLog (lit "a") (lit "s1") 1 [] [] [];
                                  mkLog (lit "b") (lit "s2") 2 [] [] []])
                       (lit "fresh")) initialWorld))
     = lit "s2".
Proof.
  split; [reflexivity|].
  pose proof (init_loads_history initialWorld
                [mkLog (lit "a") (lit "s1") 1 [] [] [];
                 mkLog (lit "b") (lit "s2") 2 [] [] []]
                (lit "fresh") eq_refl) as H.
  destruct H as [_ [_ [_ H]]].
  destruct (H _ _ eq_refl eq_refl eq_refl) as [E _]. exact E.
Defined.

(** A rejected [fetch_history] leaves the state as it was and logs the
    error. *)
Lemma init_rejected (e uuid : jsstring) (s : AppState) :
  initSettled (Rejected e) uuid s = (s, [ConsoleError e]).
Proof. reflexivity. Qed.

(* ====================================================================== *)
(** ** What each event leaves alone *)
(* ====================================================================== *)

Lemma deliver_spec (ss : list Sub) (payload : jsstring) (now : Z)
    (uuid : nat -> jsstring) (j : nat) (a : AppState) :
  fst (deliver ss payload now uuid j a)
  = setLogs (logs a ++ delivered ss payload now uuid j) a.
Proof.
  revert j a. induction ss as [|s r IH]; intros j a; simpl.
  - rewrite app_nil_r. destruct a; reflexivity.
  - destruct (live s).
    + specialize (IH (S j) (observerCallback (captured s) payload (uuid j) now a)).
      destruct (deliver r payload now uuid (S j) _) as [a2 cs]. simpl in *.
      rewrite IH. unfold observerCallback, setLogs. simpl.
      rewrite <- app_assoc. reflexivity.
    + apply IH.
Qed.

Lemma delivered_length (ss : list Sub) (payload : jsstring) (now : Z)
    (uuid : nat -> jsstring) (j : nat) :
  List.length (delivered ss payload now uuid j)
  = List.length (filter live ss).
Proof.
  revert j. induction ss as [|s r IH]; intros j; simpl; [reflexivity|].
  destruct (live s); simpl; rewrite IH; reflexivity.
Qed.

Lemma step_observer_app (w : World) (payload : jsstring) (now : Z)
    (uuid : nat -> jsstring) :
  app (step (ObserverEvent payload now uuid) w)
  = setLogs (logs (app w) ++ delivered (subs w) payload now uuid 0) (app w).
Proof.
  unfold step. rewrite <- deliver_spec.
  destruct (deliver _ _ _ _ _ _). reflexivity.
Qed.

Lemma sendResumed_frame (t : SendTask) (r : Settled (list InteractionLog))
    (s : AppState) :
  let a' := fst (fst (sendResumed t r s)) in
  bootIndex a' = bootIndex s /\ bootCompleted a' = bootCompleted s
  /\ sessionId a' = sessionId s /\ inputValue a' = inputValue s.
Proof. destruct t, r; simpl; auto. Qed.

Lemma deleteResumed_frame (t : DeleteTask) (r : Settled (list InteractionLog))
    (uuid : jsstring) (s : AppState) :
  let a' := fst (fst (deleteResumed t r uuid s)) in
  bootIndex a' = bootIndex s /\ bootCompleted a' = bootCompleted s
  /\ isThinking a' = isThinking s /\ inputValue a' = inputValue s.
Proof.
  destruct t, r; simpl; auto.
  destruct (Js.eqb _ _); simpl; auto.
Qed.

Lemma initSettled_frame (r : Settled (list InteractionLog)) (uuid : jsstring)
    (s : AppState) :
  let a' := fst (initSettled r uuid s) in
  bootIndex a' = bootIndex s /\ bootCompleted a' = bootCompleted s
  /\ isThinking a' = isThinking s /\ inputValue a' = inputValue s.
Proof.
  destruct r; simpl; auto.
  destruct (last_log a); simpl; auto.
Qed.

Lemma executeSend_frame (s : AppState) :
  let a' := fst (executeSend s) in
  bootIndex a' = bootIndex s /\ bootCompleted a' = bootCompleted s
  /\ sessionId a' = sessionId s /\ logs a' = logs s.
Proof.
  unfold executeSend. destruct (_ && _); simpl; auto.
Qed.

(** Only the interval callback writes the boot cursor and the flag. *)
Lemma step_boot_frame (e : Event) (w : World) :
  e <> Tick -> bootOf (step e w) = bootOf w.
Proof.
  intros He. unfold bootOf. destruct e; try congruence; clear He.
  - (* InitSettled *)
    unfold step. destruct (initPending w); [|reflexivity].
    pose proof (initSettled_frame r uuid (app w)) as F.
    destruct (initSettled r uuid (app w)) as [a1 cs].
    rewrite app_commitEffects. simpl in *.
    destruct F as [-> [-> _]]. reflexivity.
  - unfold step. destruct (isThinking (app w)); reflexivity.
  - unfold step.
    pose proof (executeSend_frame (app w)) as F.
    destruct (executeSend (app w)) as [a1 [t|]]; [|reflexivity].
    simpl in *. destruct F as [-> [-> _]]. reflexivity.
  - unfold step. destruct (nth_error (sends w) k) as [t|]; [|reflexivity].
    pose proof (sendResumed_frame t r (app w)) as F.
    destruct (sendResumed t r (app w)) as [[a1 t1] cs].
    simpl in *. destruct F as [-> [-> _]]. reflexivity.
  - unfold step. rewrite app_commitEffects. reflexivity.
  - unfold step. destruct (includes _ _); [|reflexivity].
    rewrite app_commitEffects. reflexivity.
  - unfold step. destruct (includes _ _); [|reflexivity].
    destruct (handleDeleteSession _ _ _) as [[t|] cs]; reflexivity.
  - unfold step. destruct (nth_error (deletes w) k) as [t|]; [|reflexivity].
    pose proof (deleteResumed_frame t r uuid (app w)) as F.
    destruct (deleteResumed t r uuid (app w)) as [[a1 t1] cs].
    rewrite app_commitEffects. simpl in *.
    destruct F as [-> [-> _]]. reflexivity.
  - unfold step. destruct (nth_error (subs w) k) as [s|]; [|reflexivity].
    destruct (registered s); reflexivity.
  - rewrite step_observer_app. reflexivity.
Qed.

(* ====================================================================== *)
(** ** Boot sequence *)
(* ====================================================================== *)

Lemma N_STEPS_val : N_STEPS = 6.
Proof. reflexivity. Qed.

Lemma step_tick_boot (w : World) (k : nat) :
  bootOf w = bootAfter k -> bootOf (step Tick w) = bootAfter (S k).
Proof.
  unfold bootOf, bootAfter. rewrite N_STEPS_val. intros H.
  injection H as Hi Hc. unfold step. rewrite Hc.
  destruct (Z.ltb_spec 6 (Z.of_nat k)) as [Hk|Hk].
  - simpl. rewrite Hi, Hc. f_equal; [lia|].
    symmetry. apply Z.ltb_lt. lia.
  - unfold bootTick. rewrite N_STEPS_val, Hi.
    destruct (Z.geb_spec (Z.min (Z.of_nat k) 6 - 1 + 1) 6) as [Hg|Hg]; simpl.
    + f_equal; [lia|]. symmetry. apply Z.ltb_lt. lia.
    + rewrite Hc. f_equal; [lia|]. symmetry.
      destruct (Z.ltb_spec 6 (Z.of_nat k)); [lia|].
      apply Z.ltb_ge. lia.
Qed.

Lemma run_boot (es : list Event) (w : World) (k : nat) :
  bootOf w = bootAfter k -> bootOf (run es w) = bootAfter (k + ticks es).
Proof.
  revert w k. induction es as [|e r IH]; intros w k H; simpl.
  - rewrite Nat.add_0_r. exact H.
  - destruct e;
      try (unfold run in IH; rewrite IH with (k := k);
           [reflexivity | rewrite step_boot_frame by discriminate; exact H]).
    unfold run in IH. rewrite IH with (k := S k).
    + f_equal. lia.
    + apply step_tick_boot. exact H.
Qed.

(** The boot state depends on the number of ticks only, whatever else
    happens in between. *)
Lemma boot_closed_form (es : list Event) :
  bootOf (run es initialWorld) = bootAfter (ticks es).
Proof. apply (run_boot es initialWorld 0). reflexivity. Qed.

Lemma statuses_rendered (fields : Z -> DateFields) (bootStart i : Z)
    (c : bool) :
  map status (renderedSteps fields bootStart i c)
  = map (stepStatus i c) [0; 1; 2; 3; 4; 5].
Proof. reflexivity. Qed.

Lemma step_cursor_monotone (e : Event) (w : World) :
  bootIndex (app w) <= bootIndex (app (step e w)).
Proof.
  destruct e;
    try (match goal with
         | |- _ <= bootIndex (app (step ?e w)) =>
             assert (H : bootOf (step e w) = bootOf w)
               by (apply step_boot_frame; discriminate);
             change (bootIndex (app (step e w)))
               with (fst (bootOf (step e w)));
             rewrite H; simpl; lia
         end).
  unfold step. destruct (bootCompleted (app w)); [lia|].
  unfold bootTick. destruct (_ >=? _); simpl; lia.
Qed.

(** C7, as the specification words it, fails at [k = N]: after exactly six
    ticks the cursor is on the last step, which is still running, and
    [bootCompleted] is false; the seventh tick sets it. *)
Lemma boot_not_completed_after_N_ticks :
  ~ (forall k : nat,
        Z.of_nat k >= N_STEPS ->
        bootCompleted (app (run (repeat Tick k) initialWorld)) = true).
Proof.
  intros H. specialize (H 6%nat). vm_compute in H.
  assert (E : false = true) by (apply H; discriminate).
  discriminate E.
Qed.

(** C7 (amended): the cursor starts at -1; after exactly [k] ticks with
    [k <= N], whatever other events occur in between, the cursor is [k-1]
    and [bootCompleted] is still false, and for [1 <= k] step [k-1] is the
    one rendered as running; after [k >= N+1] ticks [bootCompleted] is
    true and the cursor stays at [N-1]; no event decrements the cursor. *)
Theorem boot_cursor_progression :
  bootIndex initialApp = -1
  /\ (forall es : list Event,
         let k := Z.of_nat (ticks es) in
         let a := app (run es initialWorld) in
         (k <= N_STEPS ->
          bootIndex a = k - 1 /\ bootCompleted a = false
          /\ (1 <= k ->
              stepStatus (bootIndex a) (bootCompleted a) (k - 1) = running))
         /\ (k >= N_STEPS + 1 ->
             bootCompleted a = true /\ bootIndex a = N_STEPS - 1))
  /\ (forall (e : Event) (w : World),
         bootIndex (app w) <= bootIndex (app (step e w))).
Proof.
  split; [reflexivity|]. split; [|exact step_cursor_monotone].
  intros es k a. pose proof (boot_closed_form es) as H.
  unfold bootOf, bootAfter in H. fold a in H. fold k in H.
  injection H as Hi Hc. rewrite N_STEPS_val in *. split.
  - intros Hk. assert (Hi' : bootIndex a = k - 1) by lia.
    assert (Hc' : bootCompleted a = false).
    { rewrite Hc. apply Z.ltb_ge. lia. }
    split; [exact Hi'|]. split; [exact Hc'|].
    intros _. rewrite Hi', Hc'. unfold stepStatus.
    rewrite Z.ltb_irrefl, Z.eqb_refl. reflexivity.
  - intros Hk. split.
    + rewrite Hc. apply Z.ltb_lt. lia.
    + lia.
Qed.

Lemma boot_cursor_progression_witness :
  Z.of_nat (ticks [Tick; Typed (lit "x"); Tick]) <= N_STEPS
  /\ bootIndex (app (run [Tick; Typed (lit "x"); Tick] initialWorld)) = 1
  /\ bootCompleted (app (run [Tick; Typed (lit "x"); Tick] initialWorld))
     = false.
Proof.
  assert (H : Z.of_nat (ticks [Tick; Typed (lit "x"); Tick]) <= N_STEPS)
    by (vm_compute; discriminate).
  split; [exact H|].
  destruct boot_cursor_progression as [_ [P _]].
  destruct (P [Tick; Typed (lit "x"); Tick]) as [Q _].
  destruct (Q H) as [E1 [E2 _]].
  split; [exact E1 | exact E2].
Defined.

(** *** Rendering *)

Lemma reachable_boot (w : World) :
  reachable w ->
  -1 <= bootIndex (app w) <= N_STEPS - 1
  /\ (bootCompleted (app w) = true -> bootIndex (app w) = N_STEPS - 1).
Proof.
  intros [es ->]. pose proof (boot_closed_form es) as H.
  unfold bootOf, bootAfter in H. injection H as Hi Hc.
  rewrite Hi, Hc, N_STEPS_val. split; [lia|].
  intros Hlt. apply Z.ltb_lt in Hlt. lia.
Qed.

Lemma rendered_nth (fields : Z -> DateFields) (bootStart i : Z) (c : bool)
    (j : nat) (r : RenderedStep) :
  nth_error (renderedSteps fields bootStart i c) j = Some r ->
  Z.of_nat j <= N_STEPS - 1
  /\ status r = stepStatus i c (Z.of_nat j)
  /\ r_timestamp r
     = (if Z.of_nat j <=? i
        then formatBootTime
               (fields (bootStart + Z.min (Z.of_nat j) i * STEP_INTERVAL_MS))
        else NO_TIME).
Proof.
  unfold renderedSteps, mapi, BOOT_STEPS.
  do 6 (destruct j as [|j];
        [ cbn [nth_error mapi_from]; intros H; injection H as <-;
          split; [rewrite N_STEPS_val; simpl; lia|];
          split; reflexivity
        | ]).
  cbn [nth_error mapi_from]. destruct j; discriminate.
Qed.

Lemma countRunning_statuses (rs : list RenderedStep) :
  countRunning rs
  = List.length (filter (fun s => BootStatus_eqb s running) (map status rs)).
Proof.
  unfold countRunning. induction rs as [|r rs IH]; simpl; [reflexivity|].
  destruct (BootStatus_eqb (status r) running); simpl; rewrite IH; reflexivity.
Qed.

(** C8, as the specification words it, fails before the first tick: the
    application starts with the cursor at -1 and not completed, and no
    step is rendered as running. *)
Lemma no_step_running_before_first_tick :
  reachable initialWorld
  /\ bootCompleted (app initialWorld) = false
  /\ forall (fields : Z -> DateFields) (bootStart : Z),
       countRunning
         (renderedSteps fields bootStart (bootIndex (app initialWorld))
            (bootCompleted (app initialWorld)))
       <> 1%nat.
Proof.
  split; [exists []; reflexivity|]. split; [reflexivity|].
  intros fields bootStart. rewrite countRunning_statuses, statuses_rendered.
  vm_compute. discriminate.
Qed.

(** C8 (amended): in every reachable state the cursor is not decreased by
    any event; while not completed, exactly one rendered step is running
    once the cursor is on a step (from the first tick on), and none is
    before the first tick, while the cursor is still -1; every step with
    index <= cursor is ok or running, every step with index > cursor is
    pending and renders the time stamp "--:--:--". *)
Theorem boot_render_invariant :
  forall (fields : Z -> DateFields) (bootStart : Z) (w : World),
    reachable w ->
    let i := bootIndex (app w) in
    let c := bootCompleted (app w) in
    let rs := renderedSteps fields bootStart i c in
    (forall e : Event, i <= bootIndex (app (step e w)))
    /\ (c = false -> 0 <= i -> countRunning rs = 1%nat)
    /\ (c = false -> i = -1 -> countRunning rs = 0%nat)
    /\ (forall (j : nat) (r : RenderedStep),
           nth_error rs j = Some r ->
           (Z.of_nat j <= i -> status r = ok \/ status r = running)
           /\ (i < Z.of_nat j ->
               status r = pending /\ r_timestamp r = NO_TIME)).
Proof.
  intros fields bootStart w Hr i c rs.
  destruct (reachable_boot w Hr) as [Hrange Hdone].
  fold i in Hrange, Hdone. fold c in Hdone. rewrite N_STEPS_val in *.
  split; [intros e; apply step_cursor_monotone|].
  split; [|split].
  - intros Hc Hi. subst rs. rewrite countRunning_statuses, statuses_rendered.
    rewrite Hc.
    assert (Hcases : i = 0 \/ i = 1 \/ i = 2 \/ i = 3 \/ i = 4 \/ i = 5)
      by lia.
    destruct Hcases as [-> | [-> | [-> | [-> | [-> | ->]]]]]; reflexivity.
  - intros Hc Hi. subst rs. rewrite countRunning_statuses, statuses_rendered.
    rewrite Hc, Hi. reflexivity.
  - intros j r Hj. apply rendered_nth in Hj.
    destruct Hj as [Hlt [Hs Ht]]. rewrite N_STEPS_val in Hlt. split.
    + intros Hle. rewrite Hs. unfold stepStatus.
      destruct (Z.ltb_spec (Z.of_nat j) i); [left; reflexivity|].
      assert (E : Z.of_nat j = i) by lia. rewrite E, Z.eqb_refl.
      destruct c eqn:Ec; simpl.
      * specialize (Hdone eq_refl).
        destruct (Z.eqb_spec i 5); [left; reflexivity | lia].
      * right. reflexivity.
    + intros Hgt. split.
      * rewrite Hs. unfold stepStatus.
        destruct (Z.ltb_spec (Z.of_nat j) i); [lia|].
        destruct (Z.eqb_spec (Z.of_nat j) i); [lia|]. simpl.
        destruct c eqn:Ec; simpl; [|reflexivity].
        destruct (Z.eqb_spec (Z.of_nat j) 5); [|reflexivity].
        specialize (Hdone eq_refl). lia.
      * rewrite Ht. destruct (Z.leb_spec (Z.of_nat j) i); [lia|reflexivity].
Qed.

Lemma boot_render_invariant_witness :
  reachable (run [Tick; Tick] initialWorld)
  /\ countRunning
       (renderedSteps (fun _ => mkFields 9 5 7) 0
          (bootIndex (app (run [Tick; Tick] initialWorld)))
          (bootCompleted (app (run [Tick; Tick] initialWorld))))
     = 1%nat.
Proof.
  assert (R : reachable (run [Tick; Tick] initialWorld))
    by (exists [Tick; Tick]; reflexivity).
  split; [exact R|].
  destruct (boot_render_invariant (fun _ => mkFields 9 5 7) 0 _ R)
    as [_ [H _]].
  apply H; [reflexivity | vm_compute; discriminate].
Defined.

(* ====================================================================== *)
(** ** Submission *)
(* ====================================================================== *)

Lemma sends_commitEffects (before : jsstring) (w : World) :
  sends (commitEffects before w) = sends w.
Proof. unfold commitEffects. destruct (Js.eqb _ _); reflexivity. Qed.

(** Events other than typing, [executeSend] and its resumptions touch
    neither the suspended submissions, nor the busy flag, nor the input
    buffer. *)
Lemma step_submit_frame (e : Event) (w : World) :
  match e with
  | Typed _ | ExecuteSend | SendResumed _ _ => True
  | _ =>
      sends (step e w) = sends w
      /\ isThinking (app (step e w)) = isThinking (app w)
      /\ inputValue (app (step e w)) = inputValue (app w)
  end.
Proof.
  destruct e; try exact I.
  - unfold step. destruct (bootCompleted (app w)); [auto|].
    unfold bootTick. destruct (_ >=? _); simpl; auto.
  - unfold step. destruct (initPending w); [|auto].
    pose proof (initSettled_frame r uuid (app w)) as F.
    destruct (initSettled r uuid (app w)) as [a1 cs].
    rewrite sends_commitEffects, app_commitEffects. simpl in *. tauto.
  - unfold step. rewrite sends_commitEffects, app_commitEffects. simpl. auto.
  - unfold step. destruct (includes _ _); [|auto].
    rewrite sends_commitEffects, app_commitEffects. simpl. auto.
  - unfold step. destruct (includes _ _); [|auto].
    destruct (handleDeleteSession _ _ _) as [[t|] cs]; simpl; auto.
  - unfold step. destruct (nth_error (deletes w) k) as [t|]; [|auto].
    pose proof (deleteResumed_frame t r uuid (app w)) as F.
    destruct (deleteResumed t r uuid (app w)) as [[a1 t1] cs].
    rewrite sends_commitEffects, app_commitEffects. simpl in *. tauto.
  - unfold step. destruct (nth_error (subs w) k) as [s|]; [|auto].
    destruct (registered s); simpl; auto.
  - rewrite step_observer_app. unfold step.
    destruct (deliver _ _ _ _ _ _). simpl. auto.
Qed.

(** The guard of [executeSend] fails exactly when the busy flag is up or
    the input is empty or white space only. *)
Lemma executeSend_guard (s : AppState) :
  truthy (trim (inputValue s)) && negb (isThinking s) = false
  <-> isThinking s = true \/ forallb isWhiteSpace (inputValue s) = true.
Proof.
  rewrite andb_false_iff, negb_false_iff, truthy_trim_false. tauto.
Qed.

Lemma executeSend_noop (s : AppState) :
  isThinking s = true \/ forallb isWhiteSpace (inputValue s) = true ->
  executeSend s = (s, None).
Proof.
  intros H. apply executeSend_guard in H. unfold executeSend.
  rewrite H. reflexivity.
Qed.

Lemma executeSend_starts (s : AppState) :
  isThinking s = false -> forallb isWhiteSpace (inputValue s) = false ->
  executeSend s
  = (setIsThinking true (setInputValue [] s),
     Some (AwaitFrame (trim (inputValue s)) (sessionId s))).
Proof.
  intros Hb Hw. unfold executeSend. rewrite Hb.
  destruct (truthy (trim (inputValue s))) eqn:E; [reflexivity|].
  apply truthy_trim_false in E. congruence.
Qed.

Lemma step_singleFlight (e : Event) (w : World) :
  singleFlight w -> singleFlight (step e w).
Proof.
  intros Inv.
  pose proof (step_submit_frame e w) as F.
  destruct e;
    try (lazymatch type of F with
         | _ /\ _ =>
             destruct F as [F0 [F1 F2]]; unfold singleFlight in *;
             rewrite F0, F1, F2; exact Inv
         end).
  - (* Typed *)
    unfold step. destruct (isThinking (app w)) eqn:Eb; [exact Inv|].
    unfold singleFlight in *. simpl. rewrite Eb in *.
    destruct Inv as [[Hs _] | [_ [Hb _]]]; [left; auto | discriminate].
  - (* ExecuteSend *)
    unfold step, executeSend.
    destruct (truthy _ && negb (isThinking (app w))) eqn:G; [|exact Inv].
    apply andb_true_iff in G. destruct G as [_ G].
    apply negb_true_iff in G. unfold singleFlight in *.
    destruct Inv as [[Hs _] | [_ [Hb _]]]; [|congruence].
    right. simpl. rewrite Hs. split; [exists (AwaitFrame (trim (inputValue (app w))) (sessionId (app w))); reflexivity|].
    auto.
  - (* SendResumed *)
    unfold step. destruct (nth_error (sends w) k) as [t|] eqn:Ek;
      [|exact Inv].
    unfold singleFlight in *.
    destruct Inv as [[Hs _] | [[t0 Hs] [Hb Hi]]].
    + rewrite Hs in Ek. destruct k; discriminate.
    + rewrite Hs in Ek. destruct k as [|k]; [|destruct k; discriminate].
      injection Ek as ->. rewrite Hs.
      destruct t as [text sid| |], r as [x|err]; simpl;
        try (left; split; reflexivity);
        right; (split; [eexists; reflexivity | split; assumption]).
Qed.

Lemma reachable_singleFlight (w : World) : reachable w -> singleFlight w.
Proof.
  intros [es ->]. unfold run.
  assert (H : singleFlight initialWorld) by (left; split; reflexivity).
  revert H. generalize initialWorld.
  induction es as [|e r IH]; intros w0 H; simpl; [exact H|].
  apply IH. apply step_singleFlight. exact H.
Qed.

(** C1: in every reachable state at most one call of [executeSend] is
    suspended, the busy flag is up exactly while one is, and at most one
    [ask_axis] call is outstanding; [executeSend] called while the busy
    flag is up, or with an input that is empty or white space only, leaves
    the whole state as it is: no suspended call is added, no call is
    issued, the input buffer and the busy flag keep their values. *)
Theorem submit_single_flight :
  (forall w : World,
      reachable w ->
      (List.length (sends w) <= 1)%nat
      /\ (isThinking (app w) = true <-> sends w <> [])
      /\ (asksInFlight w <= 1)%nat)
  /\ (forall w : World,
         isThinking (app w) = true
         \/ forallb isWhiteSpace (inputValue (app w)) = true ->
         executeSend (app w) = (app w, None)
         /\ step ExecuteSend w = w).
Proof.
  split.
  - intros w Hr. apply reachable_singleFlight in Hr. unfold asksInFlight.
    destruct Hr as [[Hs Hb] | [[t Hs] [Hb _]]]; rewrite Hs, Hb.
    + simpl. split; [lia|]. split; [|lia]. split; [discriminate|congruence].
    + split; [simpl; lia|]. split; [split; [discriminate|reflexivity]|].
      destruct t; simpl; lia.
  - intros w H. pose proof (executeSend_noop (app w) H) as E.
    split; [exact E|]. unfold step. rewrite E. reflexivity.
Qed.

Lemma submit_single_flight_witness :
  reachable (run [Typed (lit "hi"); ExecuteSend] initialWorld)
  /\ isThinking (app (run [Typed (lit "hi"); ExecuteSend] initialWorld)) = true
  /\ (List.length (sends (run [Typed (lit "hi"); ExecuteSend] initialWorld))
      <= 1)%nat
  /\ step ExecuteSend (run [Typed (lit "hi"); ExecuteSend] initialWorld)
     = run [Typed (lit "hi"); ExecuteSend] initialWorld.
Proof.
  assert (R : reachable (run [Typed (lit "hi"); ExecuteSend] initialWorld))
    by (exists [Typed (lit "hi"); ExecuteSend]; reflexivity).
  assert (B : isThinking
                (app (run [Typed (lit "hi"); ExecuteSend] initialWorld))
              = true) by reflexivity.
  destruct submit_single_flight as [H1 H2].
  split; [exact R|]. split; [exact B|]. split.
  - destruct (H1 _ R) as [L _]. exact L.
  - destruct (H2 _ (or_introl B)) as [_ E]. exact E.
Defined.

Lemma run_app (es1 es2 : list Event) (w : World) :
  run (es1 ++ es2) w = run es2 (run es1 w).
Proof. unfold run. apply fold_left_app. Qed.

Lemma run_cons (e : Event) (es : list Event) (w : World) :
  run (e :: es) w = run es (step e w).
Proof. reflexivity. Qed.

Lemma run_singleFlight (es : list Event) (w : World) :
  singleFlight w -> singleFlight (run es w).
Proof.
  revert w. induction es as [|e r IH]; intros w H; [exact H|].
  rewrite run_cons. apply IH, step_singleFlight, H.
Qed.

(** While a submission is suspended, nothing but its own resumption
    changes where it is suspended. *)
Lemma step_other_keeps_task (e : Event) (w : World) (t : SendTask) :
  sends w = [t] -> isThinking (app w) = true -> otherEvent e = true ->
  sends (step e w) = [t] /\ isThinking (app (step e w)) = true.
Proof.
  intros Hs Hb He. pose proof (step_submit_frame e w) as F.
  destruct e; try discriminate;
    try (lazymatch type of F with
         | _ /\ _ => destruct F as [F0 [F1 _]]; rewrite F0, F1; auto
         end).
  - unfold step. rewrite Hb. auto.
  - unfold step. rewrite (executeSend_noop (app w) (or_introl Hb)). auto.
Qed.

Lemma run_other_keeps_task (es : list Event) (w : World) (t : SendTask) :
  sends w = [t] -> isThinking (app w) = true ->
  forallb otherEvent es = true ->
  sends (run es w) = [t] /\ isThinking (app (run es w)) = true.
Proof.
  revert w. induction es as [|e r IH]; intros w Hs Hb He; [auto|].
  simpl in He. apply andb_true_iff in He. destruct He as [He Hr].
  rewrite run_cons.
  destruct (step_other_keeps_task e w t Hs Hb He) as [Hs' Hb'].
  apply IH; assumption.
Qed.

(** The state right after [executeSend] passed its guard and was then
    resumed from the animation frame: the ask call is the last call made
    and carries the trimmed text and the session id of the call time. *)
Lemma submit_until_ask (w : World) (es1 : list Event)
    (r0 : Settled (list InteractionLog)) :
  reachable w ->
  isThinking (app w) = false ->
  forallb isWhiteSpace (inputValue (app w)) = false ->
  forallb otherEvent es1 = true ->
  let text := trim (inputValue (app w)) in
  let sid := sessionId (app w) in
  let w0 := run (ExecuteSend :: es1) w in
  let w1 := step (SendResumed 0 r0) w0 in
  sends w1 = [AwaitAsk] /\ isThinking (app w1) = true
  /\ app w1 = app w0
  /\ calls w1 = calls w0 ++ [ConsoleLog [text; sid]; InvokeAsk text sid].
Proof.
  intros Hr Hb Hw He text sid w0 w1.
  pose proof (reachable_singleFlight w Hr) as Inv.
  assert (Hs : sends w = []).
  { destruct Inv as [[Hs _] | [_ [Hb' _]]]; [exact Hs | congruence]. }
  assert (H0 : sends (step ExecuteSend w) = [AwaitFrame text sid]
               /\ isThinking (app (step ExecuteSend w)) = true).
  { unfold step. rewrite (executeSend_starts (app w) Hb Hw). simpl.
    rewrite Hs. auto. }
  destruct H0 as [Hs0 Hb0].
  destruct (run_other_keeps_task es1 _ _ Hs0 Hb0 He) as [Hs1 Hb1].
  fold (run (ExecuteSend :: es1) w) in Hs1, Hb1.
  change (run es1 (step ExecuteSend w)) with w0 in Hs1, Hb1.
  subst w1. unfold step. rewrite Hs1. simpl. auto.
Qed.

(** C2, as the specification words it, fails when the ask call rejects:
    the submission returns through [catch] and [finally] without any
    [fetch_history] call, so nothing is reloaded. *)
Lemma rejected_ask_skips_reload :
  let w := run [Typed (lit "hi")] initialWorld in
  let w' := run [ExecuteSend; SendResumed 0 (Resolved []);
                 SendResumed 0 (Rejected (lit "boom"))] w in
  isThinking (app w) = false
  /\ trim (inputValue (app w)) = lit "hi"
  /\ In (InvokeAsk (lit "hi") []) (calls w')
  /\ sends w' = []
  /\ filter isFetchHistory (calls w') = filter isFetchHistory (calls w).
Proof. vm_compute. repeat split. right. right. right. left. reflexivity. Qed.

(** C2 (amended): for every submission that passes the guard and whose
    ask call resolves, the history is then fetched without any test of
    what the ask call did, and when the fetch resolves the log collection
    is exactly the returned snapshot [h], whatever it is (the old logs plus
    one log, plus two, or unchanged) and whatever other events (typing,
    observer events, session changes, ticks) occurred while the submission
    was suspended. *)
Theorem submit_reloads_history :
  forall (w : World) (es1 es2 es3 : list Event)
         (r0 : Settled (list InteractionLog))
         (x h : list InteractionLog),
    reachable w ->
    isThinking (app w) = false ->
    forallb isWhiteSpace (inputValue (app w)) = false ->
    forallb otherEvent es1 = true ->
    forallb otherEvent es2 = true ->
    forallb otherEvent es3 = true ->
    let w1 := run (ExecuteSend :: es1 ++ [SendResumed 0 r0]) w in
    let w2 := run (es2 ++ [SendResumed 0 (Resolved x)]) w1 in
    let w3 := run (es3 ++ [SendResumed 0 (Resolved h)]) w2 in
    calls w2 = calls (run es2 w1) ++ [InvokeFetchHistory]
    /\ logs (app w3) = h
    /\ sends w3 = [] /\ isThinking (app w3) = false.
Proof.
  intros w es1 es2 es3 r0 x h Hr Hb Hw H1 H2 H3 w1 w2 w3.
  destruct (submit_until_ask w es1 r0 Hr Hb Hw H1) as [Hs1 [Hb1 _]].
  assert (E1 : w1 = step (SendResumed 0 r0) (run (ExecuteSend :: es1) w)).
  { subst w1. rewrite app_comm_cons, run_app. reflexivity. }
  rewrite <- E1 in Hs1, Hb1.
  destruct (run_other_keeps_task es2 w1 _ Hs1 Hb1 H2) as [Hs2 Hb2].
  assert (E2 : w2 = step (SendResumed 0 (Resolved x)) (run es2 w1)).
  { subst w2. rewrite run_app. reflexivity. }
  assert (Hs2' : sends w2 = [AwaitFetch] /\ isThinking (app w2) = true
                 /\ calls w2 = calls (run es2 w1) ++ [InvokeFetchHistory]).
  { rewrite E2. unfold step. rewrite Hs2. simpl. auto. }
  destruct Hs2' as [Hs3 [Hb3 Hc3]].
  destruct (run_other_keeps_task es3 w2 _ Hs3 Hb3 H3) as [Hs4 Hb4].
  assert (E3 : w3 = step (SendResumed 0 (Resolved h)) (run es3 w2)).
  { subst w3. rewrite run_app. reflexivity. }
  split; [exact Hc3|]. rewrite E3. unfold step. rewrite Hs4. simpl. auto.
Qed.

Lemma submit_reloads_history_witness :
  let w := run [Typed (lit "hi")] initialWorld in
  let h := [mkLog (lit "a") (lit "s1") 1 [] (lit "yo") (lit "gpt")] in
  let ev := ObserverEvent (lit "ping") 5 (fun _ => lit "u") in
  reachable w
  /\ forallb isWhiteSpace (inputValue (app w)) = false
  /\ logs (app (run ([ev] ++ [SendResumed 0 (Resolved h)])
                 (run ([] ++ [SendResumed 0 (Resolved [])])
                    (run (ExecuteSend :: [Tick] ++ [SendResumed 0 (Resolved [])])
                       w))))
     = h.
Proof.
  intros w h ev.
  assert (R : reachable w) by (exists [Typed (lit "hi")]; reflexivity).
  split; [exact R|]. split; [reflexivity|].
  destruct (submit_reloads_history w [Tick] [] [ev] (Resolved []) [] h
              R eq_refl eq_refl eq_refl eq_refl eq_refl) as [_ [E _]].
  exact E.
Defined.

(** C10: no step of a submission writes the active session id: neither
    the call of [executeSend] nor any of its resumptions, for whatever the
    awaited call settled with; the listener effect is not re-run either.
    The start-up load, in contrast, sets the active session id from the
    fetched history. *)
Theorem submit_keeps_session :
  (forall w : World,
      sessionId (app (step ExecuteSend w)) = sessionId (app w)
      /\ subs (step ExecuteSend w) = subs w)
  /\ (forall (w : World) (k : nat) (r : Settled (list InteractionLog)),
         sessionId (app (step (SendResumed k r) w)) = sessionId (app w)
         /\ subs (step (SendResumed k r) w) = subs w)
  /\ sessionId
       (app (step (InitSettled
                     (Resolved [mkLog (lit "a") (lit "s1") 1 [] [] []])
                     (lit "fresh")) initialWorld))
     <> sessionId (app initialWorld).
Proof.
  split; [|split].
  - intros w. unfold step.
    pose proof (executeSend_frame (app w)) as F.
    destruct (executeSend (app w)) as [a1 [t|]]; simpl in *; [|auto].
    destruct F as [_ [_ [F _]]]. auto.
  - intros w k r. unfold step.
    destruct (nth_error (sends w) k) as [t|]; [|auto].
    pose proof (sendResumed_frame t r (app w)) as F.
    destruct (sendResumed t r (app w)) as [[a1 t1] cs]. simpl in *.
    destruct F as [_ [_ [F _]]]. auto.
  - vm_compute. discriminate.
Qed.

Lemma step_resume_fetch (w : World) (r : Settled (list InteractionLog)) :
  sends w = [AwaitFetch] ->
  isThinking (app (step (SendResumed 0 r) w)) = false
  /\ sends (step (SendResumed 0 r) w) = [].
Proof.
  intros Hs. unfold step. rewrite Hs. destruct r; simpl; auto.
Qed.

(** C9: when the ask call of a submission rejects, the error is logged
    (and nothing else is called: no history fetch), the input buffer stays
    empty as [executeSend] left it, the log collection and the active
    session id are what they were just before the rejection was handled,
    and the busy flag is cleared; it is cleared as well on the two other
    exits, the history fetch resolving or rejecting, so no submission that
    settles leaves the flag up. *)
Theorem submit_error_clears_busy :
  forall (w : World) (es1 es2 es3 : list Event)
         (r0 r1 r2 : Settled (list InteractionLog)) (err : jsstring),
    reachable w ->
    isThinking (app w) = false ->
    forallb isWhiteSpace (inputValue (app w)) = false ->
    forallb otherEvent es1 = true ->
    forallb otherEvent es2 = true ->
    forallb otherEvent es3 = true ->
    let w1 := run (ExecuteSend :: es1 ++ [SendResumed 0 r0]) w in
    let before := run es2 w1 in
    let failedAsk := step (SendResumed 0 (Rejected err)) before in
    let settled := run (es3 ++ [SendResumed 0 r2])
                       (step (SendResumed 0 r1) before) in
    (calls failedAsk = calls before ++ [ConsoleError err]
     /\ inputValue (app failedAsk) = []
     /\ logs (app failedAsk) = logs (app before)
     /\ sessionId (app failedAsk) = sessionId (app before)
     /\ isThinking (app failedAsk) = false
     /\ sends failedAsk = [])
    /\ (match r1 with
        | Rejected _ => isThinking (app (step (SendResumed 0 r1) before)) = false
        | Resolved _ => isThinking (app settled) = false /\ sends settled = []
        end).
Proof.
  intros w es1 es2 es3 r0 r1 r2 err Hr Hb Hw H1 H2 H3
         w1 before failedAsk settled.
  destruct (submit_until_ask w es1 r0 Hr Hb Hw H1) as [Hs1 [Hb1 _]].
  assert (E1 : w1 = step (SendResumed 0 r0) (run (ExecuteSend :: es1) w)).
  { subst w1. rewrite app_comm_cons, run_app. reflexivity. }
  rewrite <- E1 in Hs1, Hb1.
  destruct (run_other_keeps_task es2 w1 _ Hs1 Hb1 H2) as [Hs2 Hb2].
  fold before in Hs2, Hb2.
  assert (Inv : singleFlight before).
  { subst before w1. rewrite <- run_app. apply run_singleFlight.
    apply reachable_singleFlight. exact Hr. }
  assert (Hin : inputValue (app before) = []).
  { destruct Inv as [[_ Hb'] | [_ [_ Hi]]]; [congruence | exact Hi]. }
  split.
  - subst failedAsk. unfold step. rewrite Hs2. simpl. auto 7.
  - destruct r1 as [x|e1].
    + assert (Hs3 : sends (step (SendResumed 0 (Resolved x)) before)
                    = [AwaitFetch]
                    /\ isThinking (app (step (SendResumed 0 (Resolved x))
                                          before)) = true).
      { unfold step. rewrite Hs2. simpl. auto. }
      destruct Hs3 as [Hs3 Hb3].
      destruct (run_other_keeps_task es3 _ _ Hs3 Hb3 H3) as [Hs4 Hb4].
      subst settled. rewrite run_app.
      change (run [SendResumed 0 r2] ?X) with (step (SendResumed 0 r2) X).
      apply step_resume_fetch. exact Hs4.
    + unfold step. rewrite Hs2. reflexivity.
Qed.

Lemma submit_error_clears_busy_witness :
  let w := run [Typed (lit "hi")] initialWorld in
  let w1 := run (ExecuteSend :: [] ++ [SendResumed 0 (Resolved [])]) w in
  let failedAsk := step (SendResumed 0 (Rejected (lit "boom"))) (run [] w1) in
  reachable w
  /\ forallb isWhiteSpace (inputValue (app w)) = false
  /\ calls failedAsk = calls (run [] w1) ++ [ConsoleError (lit "boom")]
  /\ inputValue (app failedAsk) = []
  /\ isThinking (app failedAsk) = false.
Proof.
  intros w w1 failedAsk.
  assert (R : reachable w) by (exists [Typed (lit "hi")]; reflexivity).
  split; [exact R|]. split; [reflexivity|].
  destruct (submit_error_clears_busy w [] [] [] (Resolved [])
              (Rejected (lit "boom")) (Resolved []) (lit "boom")
              R eq_refl eq_refl eq_refl eq_refl eq_refl)
    as [[C [I [_ [_ [B _]]]]] _].
  split; [exact C|]. split; [exact I | exact B].
Defined.

(* ====================================================================== *)
(** ** Observer events *)
(* ====================================================================== *)

(** The callback itself appends exactly one log, built from the payload
    and the session id it closed over, and touches nothing else. *)
Lemma observerCallback_appends (sid payload uuid : jsstring) (now : Z)
    (s : AppState) :
  let s' := observerCallback sid payload uuid now s in
  exists l,
    logs s' = logs s ++ [l]
    /\ session_id l = sid /\ user_tokens l = []
    /\ provider_used l = lit "Observer" /\ ai_response l = payload
    /\ sessionId s' = sessionId s.
Proof.
  simpl. exists (newMessage sid payload uuid now). simpl. auto 6.
Qed.

(** With exactly one callback installed, and that one set up under the
    active session id, a delivery appends exactly one log, attributed to
    the active session. *)
Lemma observer_event_one_listener (w : World) (s : Sub) (payload : jsstring)
    (now : Z) (uuid : nat -> jsstring) :
  filter live (subs w) = [s] ->
  captured s = sessionId (app w) ->
  logs (app (step (ObserverEvent payload now uuid) w))
  = logs (app w) ++ [newMessage (sessionId (app w)) payload (uuid O) now].
Proof.
  intros Hl Hc. rewrite step_observer_app. simpl. f_equal.
  rewrite <- Hc. clear Hc.
  generalize dependent (subs w). intros ss. generalize O.
  induction ss as [|x r IH]; intros j Hl; simpl in *; [discriminate|].
  destruct (live x) eqn:E.
  - injection Hl as -> Hr. f_equal.
    assert (Hlen : List.length (delivered r payload now uuid (S j)) = O).
    { rewrite delivered_length, Hr. reflexivity. }
    destruct (delivered r payload now uuid (S j)); [reflexivity|discriminate].
  - apply IH. exact Hl.
Qed.

(** *** The listener that is never removed *)

Lemma updLast_length {A : Type} (f : A -> A) (l : list A) :
  List.length (updLast f l) = List.length l.
Proof.
  induction l as [|x r IH]; [reflexivity|].
  destruct r; [reflexivity|]. simpl in *. rewrite IH. reflexivity.
Qed.

Lemma updLast_nth {A : Type} (f : A -> A) (l : list A) (k : nat) :
  (S k < List.length l)%nat -> nth_error (updLast f l) k = nth_error l k.
Proof.
  revert k. induction l as [|x r IH]; intros k Hk; [reflexivity|].
  destruct r as [|y r]; [simpl in Hk; lia|].
  destruct k as [|k]; [reflexivity|].
  change (updLast f (x :: y :: r)) with (x :: updLast f (y :: r)).
  simpl nth_error. apply IH. simpl in *. lia.
Qed.

Lemma updNth_length {A : Type} (f : A -> A) (k : nat) (l : list A) :
  List.length (updNth f k l) = List.length l.
Proof.
  revert k. induction l as [|x r IH]; intros k; [destruct k; reflexivity|].
  destruct k; simpl; [reflexivity|]. rewrite IH. reflexivity.
Qed.

Lemma updNth_nth_other {A : Type} (f : A -> A) (k j : nat) (l : list A) :
  k <> j -> nth_error (updNth f k l) j = nth_error l j.
Proof.
  revert k j. induction l as [|x r IH]; intros k j Hne;
    [destruct k; reflexivity|].
  destruct k, j; simpl; try reflexivity; try congruence.
  apply IH. congruence.
Qed.

Lemma commitEffects_keeps_older (before : jsstring) (w : World) (k : nat) :
  (S k < List.length (subs w))%nat ->
  nth_error (subs (commitEffects before w)) k = nth_error (subs w) k
  /\ (S k < List.length (subs (commitEffects before w)))%nat.
Proof.
  intros Hk. unfold commitEffects.
  destruct (Js.eqb _ _); simpl; [auto|].
  rewrite nth_error_app1 by (rewrite updLast_length; lia).
  rewrite updLast_nth by exact Hk.
  rewrite length_app, updLast_length. simpl. split; [reflexivity|lia].
Qed.

Ltac keep_older Hk :=
  match goal with
  | |- context [commitEffects ?b ?W] =>
      exact (commitEffects_keeps_older b W _ Hk)
  end.

(** An installed callback of a run of the effect that is not the current
    one stays installed over every event. *)
Lemma step_keeps_stale_listener (e : Event) (w : World) (k : nat) (s : Sub) :
  nth_error (subs w) k = Some s -> live s = true ->
  (S k < List.length (subs w))%nat ->
  nth_error (subs (step e w)) k = Some s
  /\ (S k < List.length (subs (step e w)))%nat.
Proof.
  intros Hn Hl Hk.
  destruct e; unfold step.
  - destruct (bootCompleted (app w)); [auto|].
    destruct (bootTick (app w)). simpl. auto.
  - destruct (initPending w); [|auto].
    destruct (initSettled r uuid (app w)) as [a1 cs].
    rewrite <- Hn. keep_older Hk.
  - destruct (isThinking (app w)); simpl; auto.
  - destruct (executeSend (app w)) as [a1 [t|]]; simpl; auto.
  - destruct (nth_error (sends w) k0); [|auto].
    destruct (sendResumed _ _ _) as [[a1 t1] cs]. simpl. auto.
  - rewrite <- Hn. keep_older Hk.
  - destruct (includes _ _); [|auto].
    rewrite <- Hn. keep_older Hk.
  - destruct (includes _ _); [|auto].
    destruct (handleDeleteSession _ _ _) as [[t|] cs]; simpl; auto.
  - destruct (nth_error (deletes w) k0); [|auto].
    destruct (deleteResumed _ _ _ _) as [[a1 t1] cs].
    rewrite <- Hn. keep_older Hk.
  - destruct (nth_error (subs w) k0) as [s0|] eqn:E0; [|auto].
    destruct (registered s0) eqn:Er; [auto|]. simpl.
    rewrite updNth_length. split; [|exact Hk].
    rewrite updNth_nth_other; [exact Hn|].
    intros ->. rewrite Hn in E0. injection E0 as <-.
    unfold live in Hl. rewrite Er in Hl. discriminate.
  - destruct (deliver _ _ _ _ _ _). simpl. auto.
Qed.

Lemma run_keeps_stale_listener (es : list Event) (w : World) (k : nat)
    (s : Sub) :
  nth_error (subs w) k = Some s -> live s = true ->
  (S k < List.length (subs w))%nat ->
  nth_error (subs (run es w)) k = Some s.
Proof.
  revert w. induction es as [|e r IH]; intros w Hn Hl Hk; [exact Hn|].
  rewrite run_cons.
  destruct (step_keeps_stale_listener e w k s Hn Hl Hk) as [Hn' Hk'].
  apply IH; assumption.
Qed.

(** C6 (the code departs from it): when the active session id changes
    while the promise of [listen] is still pending, the cleanup finds
    [unlisten] unassigned and calls nothing; the callback is installed
    when the promise resolves and is never removed.  After the start-up
    race two [listen] calls stand against no [unlisten] call, two
    callbacks are installed, the stale one stays installed over every
    later sequence of events, and one payload is appended twice. *)
Theorem listener_leaks_on_early_session_change :
  let w := run earlySessionChange initialWorld in
  sessionId (app w) = lit "s1"
  /\ List.length (filter isListen (calls w)) = 2%nat
  /\ filter isUnlisten (calls w) = []
  /\ liveCount w = 2%nat
  /\ (forall es : list Event,
         exists s, nth_error (subs (run es w)) 0 = Some s
                   /\ leaked s = true /\ captured s = [])
  /\ (forall (payload : jsstring) (now : Z) (uuid : nat -> jsstring),
         List.length (logs (app (step (ObserverEvent payload now uuid) w)))
         = (List.length (logs (app w)) + 2)%nat).
Proof.
  intros w. split; [reflexivity|]. split; [reflexivity|].
  split; [reflexivity|]. split; [reflexivity|]. split.
  - intros es. exists (mkSub [] true true false).
    split; [|split; reflexivity].
    apply run_keeps_stale_listener; [reflexivity | reflexivity|].
    vm_compute. lia.
  - intros payload now uuid. rewrite step_observer_app. reflexivity.
Qed.

(** C5 (the code departs from it): in the state the start-up race leaves
    behind, with s1 the active session, one delivery appends two logs, and
    the first of them carries the session id the stale callback closed
    over (the empty string) instead of the active one. *)
Theorem observer_event_appended_twice :
  forall (payload : jsstring) (now : Z) (uuid : nat -> jsstring),
    let w := run earlySessionChange initialWorld in
    sessionId (app w) = lit "s1"
    /\ logs (app (step (ObserverEvent payload now uuid) w))
       = logs (app w)
         ++ [ mkLog (uuid 0%nat) [] now [] payload (lit "Observer");
              mkLog (uuid 1%nat) (lit "s1") now [] payload (lit "Observer") ].
Proof.
  intros payload now uuid w. split; [reflexivity|].
  rewrite step_observer_app. reflexivity.
Qed.

(** *** Without the race the listener effect is in order *)

Lemma updLast_snoc {A : Type} (f : A -> A) (l : list A) (x : A) :
  updLast f (l ++ [x]) = l ++ [f x].
Proof.
  induction l as [|y r IH]; [reflexivity|].
  change ((y :: r) ++ [x]) with (y :: (r ++ [x])).
  destruct (r ++ [x]) as [|z t] eqn:E.
  - destruct r; discriminate.
  - change (updLast f (y :: z :: t)) with (y :: updLast f (z :: t)).
    rewrite IH. reflexivity.
Qed.

Lemma currentRegistered_snoc (l : list Sub) (x : Sub) :
  currentRegistered (l ++ [x]) = registered x.
Proof. unfold currentRegistered. rewrite rev_app_distr. reflexivity. Qed.

Lemma retired_listenResolved (s : Sub) :
  retired s = true -> retired (listenResolved s) = true.
Proof.
  unfold retired. destruct s as [c r cl u]. simpl.
  destruct r, cl, u; simpl; congruence.
Qed.

Lemma orderlyAt_listenResolved (sid : jsstring) (ss : list Sub) (k : nat) :
  orderlyAt sid ss -> orderlyAt sid (updNth listenResolved k ss).
Proof.
  intros [older [cur [-> [Ho [Hc [Hu Hs]]]]]].
  revert k. induction older as [|o r IH]; intros k.
  - destruct k; simpl.
    + exists [], (listenResolved cur). simpl. auto.
    + exists [], cur. simpl. auto.
  - simpl in Ho. apply andb_true_iff in Ho. destruct Ho as [Ho Hr].
    destruct k as [|k]; simpl.
    + exists (listenResolved o :: r), cur. simpl.
      rewrite (retired_listenResolved o Ho), Hr. auto.
    + destruct (IH Hr k) as [older' [cur' [E [Ho' H']]]].
      exists (o :: older'), cur'. simpl. rewrite E, Ho, Ho'. auto.
Qed.

Lemma orderly_commitEffects (before : jsstring) (w : World) :
  orderlyAt before (subs w) ->
  currentRegistered (subs w) = true \/ sessionId (app w) = before ->
  orderly (commitEffects before w).
Proof.
  intros [older [cur [E [Ho [Hc [Hu Hs]]]]]] Hg. unfold orderly, commitEffects.
  destruct (Js.eqb before (sessionId (app w))) eqn:Eq.
  - apply eqb_eq in Eq. rewrite <- Eq. exists older, cur. auto.
  - apply eqb_neq in Eq. destruct Hg as [Hg | Hg]; [|congruence].
    rewrite E, currentRegistered_snoc in Hg. simpl. rewrite E, updLast_snoc.
    exists (older ++ [cleanupListener cur]), (setupListener (sessionId (app w))).
    split; [reflexivity|]. split; [|simpl; auto].
    rewrite forallb_app, Ho. unfold cleanupListener, retired.
    rewrite Hg. reflexivity.
Qed.

Lemma step_orderly (e : Event) (w : World) :
  orderly w ->
  currentRegistered (subs w) = true
  \/ sessionId (app (step e w)) = sessionId (app w) ->
  orderly (step e w).
Proof.
  intros Ho Hg. unfold orderly in Ho. revert Hg.
  destruct e; unfold step.
  - intros _. destruct (bootCompleted (app w)); [exact Ho|].
    unfold bootTick. destruct (_ >=? _); exact Ho.
  - destruct (initPending w); [|intros _; exact Ho].
    destruct (initSettled r uuid (app w)) as [a1 cs].
    rewrite app_commitEffects. intros Hg.
    apply orderly_commitEffects; assumption.
  - intros _. destruct (isThinking (app w)); exact Ho.
  - intros _. pose proof (executeSend_frame (app w)) as F.
    destruct (executeSend (app w)) as [a1 [t|]]; [|exact Ho].
    simpl in F. destruct F as [_ [_ [F _]]].
    unfold orderly. simpl. rewrite F. exact Ho.
  - intros _. destruct (nth_error (sends w) k) as [t|]; [|exact Ho].
    pose proof (sendResumed_frame t r (app w)) as F.
    destruct (sendResumed t r (app w)) as [[a1 t1] cs].
    simpl in F. destruct F as [_ [_ [F _]]].
    unfold orderly. simpl. rewrite F. exact Ho.
  - rewrite app_commitEffects. intros Hg.
    apply orderly_commitEffects; assumption.
  - destruct (includes _ _); [|intros _; exact Ho].
    rewrite app_commitEffects. intros Hg.
    apply orderly_commitEffects; assumption.
  - intros _. destruct (includes _ _); [|exact Ho].
    destruct (handleDeleteSession _ _ _) as [[t|] cs]; exact Ho.
  - destruct (nth_error (deletes w) k) as [t|]; [|intros _; exact Ho].
    destruct (deleteResumed t r uuid (app w)) as [[a1 t1] cs].
    rewrite app_commitEffects. intros Hg.
    apply orderly_commitEffects; assumption.
  - intros _. destruct (nth_error (subs w) k) as [s|]; [|exact Ho].
    destruct (registered s); [exact Ho|].
    unfold orderly. simpl. apply orderlyAt_listenResolved. exact Ho.
  - intros _. pose proof (deliver_spec (subs w) payload now uuid 0 (app w)) as D.
    destruct (deliver _ _ _ _ _ _) as [a1 cs]. simpl in D. subst a1.
    exact Ho.
Qed.

Lemma initialWorld_orderly : orderly initialWorld.
Proof. exists [], (setupListener []). simpl. auto. Qed.

(** As long as no session change overtakes a pending [listen], the
    listener effect stays in order. *)
Lemma run_orderly (es : list Event) (w : World) :
  orderly w -> unhurried es w -> orderly (run es w).
Proof.
  revert w. induction es as [|e r IH]; intros w Ho Hu; [exact Ho|].
  destruct Hu as [Hg Hr]. rewrite run_cons.
  apply IH; [apply step_orderly; assumption | exact Hr].
Qed.

Lemma filter_live_retired (older : list Sub) :
  forallb retired older = true -> filter live older = [].
Proof.
  induction older as [|o r IH]; simpl; [reflexivity|].
  intros H. apply andb_true_iff in H. destruct H as [Ho Hr].
  unfold retired in Ho. unfold live.
  destruct (registered o), (cleaned o), (unlistened o); try discriminate.
  simpl. apply IH. exact Hr.
Qed.

(** In order, at most one callback is installed, and a delivery appends
    one log attributed to the active session once the current [listen]
    has resolved, none before. *)
Lemma orderly_delivery (w : World) (payload : jsstring) (now : Z)
    (uuid : nat -> jsstring) :
  orderly w ->
  (liveCount w <= 1)%nat
  /\ logs (app (step (ObserverEvent payload now uuid) w))
     = logs (app w)
       ++ (if currentRegistered (subs w)
           then [newMessage (sessionId (app w)) payload (uuid O) now]
           else []).
Proof.
  intros [older [cur [E [Ho [Hc [Hu Hs]]]]]].
  assert (Hf : filter live (subs w) = if registered cur then [cur] else []).
  { rewrite E, filter_app, (filter_live_retired older Ho). simpl.
    unfold live. rewrite Hu. destruct (registered cur); reflexivity. }
  rewrite E, currentRegistered_snoc. rewrite E in Hf. split.
  - unfold liveCount. rewrite E, Hf. destruct (registered cur); simpl; lia.
  - destruct (registered cur) eqn:Er.
    + apply observer_event_one_listener with (s := cur).
      * rewrite E. exact Hf.
      * exact Hs.
    + rewrite step_observer_app. simpl. f_equal.
      assert (Hlen : List.length (delivered (subs w) payload now uuid 0) = O).
      { rewrite delivered_length, E, Hf. reflexivity. }
      destruct (delivered (subs w) payload now uuid 0);
        [reflexivity | discriminate].
Qed.

(** The start-up in the other order: the first [listen] resolves before
    the history arrives.  The effect stays in order, the first callback is
    removed on the session change, and a payload is appended once, under
    the active session. *)
Lemma orderly_startup :
  let es := [ ListenResolved 0;
              InitSettled (Resolved [mkLog (lit "a") (lit "s1") 1 [] [] []])
                          (lit "fresh");
              ListenResolved 1 ] in
  let w := run es initialWorld in
  unhurried es initialWorld
  /\ filter isUnlisten (calls w) = [Unlisten 0]
  /\ liveCount w = 1%nat
  /\ map session_id
         (logs (app (step (ObserverEvent (lit "hello") 7 (fun _ => lit "u")) w)))
     = [lit "s1"; lit "s1"].
Proof.
  intros es w. split.
  - simpl. repeat split; (left; reflexivity) || (right; reflexivity).
  - destruct (orderly_delivery w (lit "hello") 7 (fun _ => lit "u")
                (run_orderly es initialWorld initialWorld_orderly
                   ltac:(simpl; repeat split;
                         (left; reflexivity) || (right; reflexivity))))
      as [_ E].
    rewrite E. repeat split; reflexivity.
Qed.

(* ====================================================================== *)
(** * Further properties of the code *)
(* ====================================================================== *)

(** ** Session list and transcripts *)

Lemma sessions_In (ls : list InteractionLog) (sid x : jsstring) :
  In x (sessions ls sid)
  <-> In x (map session_id ls) \/ (x = sid /\ sid <> []).
Proof.
  unfold sessions. rewrite newSet_distinct_first.
  destruct (truthy sid) eqn:Et; simpl.
  - apply truthy_true in Et.
    destruct (includes (distinct_first (map session_id ls)) sid) eqn:Ei; simpl.
    + apply includes_In in Ei. rewrite distinct_first_In in *.
      split; [auto|]. intros [H | [-> _]]; assumption.
    + rewrite in_app_iff, distinct_first_In. simpl. split.
      * intros [H | [<- | []]]; auto.
      * intros [H | [-> _]]; auto.
  - rewrite distinct_first_In. split; [auto|].
    intros [H | [_ Hne]]; [exact H|].
    destruct sid; [congruence | discriminate].
Qed.

Lemma sessions_NoDup (ls : list InteractionLog) (sid : jsstring) :
  NoDup (sessions ls sid).
Proof.
  unfold sessions. rewrite newSet_distinct_first.
  destruct (truthy sid && negb (includes _ sid)) eqn:E.
  - apply andb_true_iff in E. destruct E as [_ E].
    apply negb_true_iff in E. apply NoDup_app.
    + apply distinct_first_NoDup.
    + constructor; [simpl; tauto | constructor].
    + intros x Hx [<- | []]. apply includes_In in Hx. congruence.
  - apply distinct_first_NoDup.
Qed.

(** X1: the session list never holds an id twice (the list items are
    keyed by it), and it holds exactly the session ids of the logs plus
    the active id when that is not the empty string. *)
Theorem sessions_exact :
  forall (ls : list InteractionLog) (sid : jsstring),
    NoDup (sessions ls sid)
    /\ (forall x : jsstring,
           In x (sessions ls sid)
           <-> In x (map session_id ls) \/ (x = sid /\ sid <> [])).
Proof.
  intros ls sid. split; [apply sessions_NoDup | apply sessions_In].
Qed.

Lemma transcriptTotal_cons (l : InteractionLog) (r : list InteractionLog)
    (sids : list jsstring) :
  transcriptTotal (l :: r) sids
  = (List.length (filter (Js.eqb (session_id l)) sids)
     + transcriptTotal r sids)%nat.
Proof.
  induction sids as [|sid t IH]; simpl; [reflexivity|].
  rewrite IH. destruct (Js.eqb (session_id l) sid); simpl; lia.
Qed.

Lemma transcriptTotal_nil (sids : list jsstring) :
  transcriptTotal [] sids = O.
Proof. induction sids as [|sid t IH]; simpl; auto. Qed.

Lemma count_in_NoDup (x : jsstring) (sids : list jsstring) :
  NoDup sids -> In x sids ->
  List.length (filter (Js.eqb x) sids) = 1%nat.
Proof.
  induction 1 as [|y t Hy Ht IH]; intros Hx; [destruct Hx|].
  simpl. destruct (Js.eqb x y) eqn:E.
  - apply eqb_eq in E. subst y. simpl. f_equal.
    assert (Hn : forall l, ~ In x l -> filter (Js.eqb x) l = []).
    { induction l as [|z l IHl]; intros H; [reflexivity|]. simpl.
      destruct (Js.eqb x z) eqn:Ez.
      - apply eqb_eq in Ez. subst. exfalso. apply H. left. reflexivity.
      - apply IHl. intros H'. apply H. right. exact H'. }
    rewrite (Hn t Hy). reflexivity.
  - apply eqb_neq in E. destruct Hx as [-> | Hx]; [congruence|].
    apply IH. exact Hx.
Qed.

Lemma transcriptTotal_covering (ls : list InteractionLog)
    (sids : list jsstring) :
  NoDup sids ->
  (forall l, In l ls -> In (session_id l) sids) ->
  transcriptTotal ls sids = List.length ls.
Proof.
  intros Hnd. induction ls as [|l r IH]; intros Hall.
  - apply transcriptTotal_nil.
  - rewrite transcriptTotal_cons, count_in_NoDup;
      [| exact Hnd | apply Hall; left; reflexivity ].
    simpl. f_equal. apply IH. intros l' Hl'. apply Hall. right. exact Hl'.
Qed.

(** X2: every log is shown in exactly one thread of the sidebar: the
    transcripts of the listed sessions add up to the whole log
    collection, and each log is in the transcript of its own session. *)
Theorem transcripts_partition_logs :
  forall (ls : list InteractionLog) (sid : jsstring),
    transcriptTotal ls (sessions ls sid) = List.length ls
    /\ (forall l, In l ls -> In l (currentLogs ls (session_id l))).
Proof.
  intros ls sid. split.
  - apply transcriptTotal_covering; [apply sessions_NoDup|].
    intros l Hl. apply sessions_In. left. apply in_map. exact Hl.
  - intros l Hl. unfold currentLogs. apply filter_In.
    split; [exact Hl | apply eqb_refl].
Qed.

Lemma currentLogs_unknown (ls : list InteractionLog) (sid : jsstring) :
  ~ In sid (map session_id ls) -> currentLogs ls sid = [].
Proof.
  induction ls as [|l r IH]; intros H; [reflexivity|]. simpl.
  destruct (Js.eqb (session_id l) sid) eqn:E.
  - apply eqb_eq in E. exfalso. apply H. left. exact E.
  - apply IH. intros H'. apply H. right. exact H'.
Qed.

(** X3: "+ Initialize New Thread" with a fresh, non-empty id leaves the
    logs alone, makes the id the active one, lists it last in the sidebar
    and shows an empty transcript for it. *)
Theorem new_chat_lists_empty_thread :
  forall (w : World) (uuid : jsstring),
    uuid <> [] ->
    ~ In uuid (map session_id (logs (app w))) ->
    let w' := step (NewChat uuid) w in
    logs (app w') = logs (app w)
    /\ sessionId (app w') = uuid
    /\ sessions (logs (app w')) (sessionId (app w'))
       = distinct_first (map session_id (logs (app w))) ++ [uuid]
    /\ currentLogs (logs (app w')) (sessionId (app w')) = [].
Proof.
  intros w uuid Hne Hfresh w'. subst w'. unfold step.
  rewrite app_commitEffects. simpl.
  split; [reflexivity|]. split; [reflexivity|]. split.
  - rewrite (sessions_nonempty_active _ _ Hne). unfold listSessions_spec.
    destruct (includes _ uuid) eqn:E; [|reflexivity].
    apply includes_In in E. rewrite distinct_first_In in E.
    exfalso. apply Hfresh. exact E.
  - apply currentLogs_unknown. exact Hfresh.
Qed.

Lemma new_chat_lists_empty_thread_witness :
  let w := step (InitSettled
                   (Resolved [mkLog (lit "a") (lit "s1") 1 [] [] []])
                   (lit "u0")) initialWorld in
  lit "u1" <> []
  /\ ~ In (lit "u1") (map session_id (logs (app w)))
  /\ sessions (logs (app (step (NewChat (lit "u1")) w)))
              (sessionId (app (step (NewChat (lit "u1")) w)))
     = [lit "s1"; lit "u1"].
Proof.
  intros w.
  assert (H1 : lit "u1" <> []) by discriminate.
  assert (H2 : ~ In (lit "u1") (map session_id (logs (app w)))).
  { simpl. intros [H | []]. discriminate H. }
  split; [exact H1|]. split; [exact H2|].
  destruct (new_chat_lists_empty_thread w (lit "u1") H1 H2) as [_ [_ [E _]]].
  exact E.
Defined.

(** X4: a click on a thread whose session has logs makes it the active
    one and leaves the logs alone; the sidebar then lists exactly the
    distinct session ids of the logs, so a thread that was active without
    any log of its own is no longer listed. *)
Theorem select_session_drops_empty_thread :
  forall (w : World) (sid : jsstring),
    In sid (map session_id (logs (app w))) ->
    let w' := step (SelectSession sid) w in
    sessionId (app w') = sid
    /\ logs (app w') = logs (app w)
    /\ sessions (logs (app w')) (sessionId (app w'))
       = distinct_first (map session_id (logs (app w)))
    /\ (~ In (sessionId (app w)) (map session_id (logs (app w))) ->
        ~ In (sessionId (app w))
             (sessions (logs (app w')) (sessionId (app w')))).
Proof.
  intros w sid Hin w'. subst w'. unfold step.
  assert (Hl : includes (sessions (logs (app w)) (sessionId (app w))) sid
               = true).
  { apply includes_In, sessions_In. left. exact Hin. }
  rewrite Hl, app_commitEffects. simpl.
  assert (E : sessions (logs (app w)) sid
              = distinct_first (map session_id (logs (app w)))).
  { unfold sessions. rewrite newSet_distinct_first.
    assert (Hi : includes (distinct_first (map session_id (logs (app w)))) sid
                 = true) by (apply includes_In, distinct_first_In, Hin).
    rewrite Hi, andb_false_r. reflexivity. }
  split; [reflexivity|]. split; [reflexivity|]. split; [exact E|].
  intros Hold. rewrite E, distinct_first_In. exact Hold.
Qed.

Lemma select_session_drops_empty_thread_witness :
  let w := run [InitSettled
                  (Resolved [mkLog (lit "a") (lit "s1") 1 [] [] []])
                  (lit "u0");
                NewChat (lit "u1")] initialWorld in
  In (lit "s1") (map session_id (logs (app w)))
  /\ sessions (logs (app w)) (sessionId (app w)) = [lit "s1"; lit "u1"]
  /\ sessions (logs (app (step (SelectSession (lit "s1")) w)))
              (sessionId (app (step (SelectSession (lit "s1")) w)))
     = [lit "s1"].
Proof.
  intros w.
  assert (H : In (lit "s1") (map session_id (logs (app w))))
    by (left; reflexivity).
  split; [exact H|]. split; [reflexivity|].
  destruct (select_session_drops_empty_thread w (lit "s1") H)
    as [_ [_ [E _]]].
  exact E.
Defined.

Lemma newSet_snoc (xs : list jsstring) (x : jsstring) :
  newSet (xs ++ [x]) = setAdd (newSet xs) x.
Proof. unfold newSet. rewrite fold_left_app. reflexivity. Qed.

Lemma currentLogs_app (a b : list InteractionLog) (sid : jsstring) :
  currentLogs (a ++ b) sid = currentLogs a sid ++ currentLogs b sid.
Proof. unfold currentLogs. apply filter_app. Qed.

(** X5: a message of the observer callback that closed over the active,
    non-empty session id does not change the sidebar, goes to the end of
    the active transcript and leaves every other transcript alone. *)
Theorem observer_message_joins_active_thread :
  forall (s : AppState) (payload uuid : jsstring) (now : Z),
    sessionId s <> [] ->
    let s' := observerCallback (sessionId s) payload uuid now s in
    sessions (logs s') (sessionId s') = sessions (logs s) (sessionId s)
    /\ currentLogs (logs s') (sessionId s')
       = currentLogs (logs s) (sessionId s)
         ++ [newMessage (sessionId s) payload uuid now]
    /\ (forall other : jsstring,
           other <> sessionId s ->
           currentLogs (logs s') other = currentLogs (logs s) other).
Proof.
  intros s payload uuid now Hne s'. subst s'. simpl.
  apply truthy_true in Hne. split; [|split].
  - unfold sessions. rewrite Hne, map_app.
    change (map session_id [newMessage (sessionId s) payload uuid now])
      with [sessionId s].
    rewrite newSet_snoc. simpl.
    unfold setAdd.
    destruct (includes (newSet (map session_id (logs s))) (sessionId s))
      eqn:E; simpl.
    + rewrite E. reflexivity.
    + rewrite includes_app, E. simpl. unfold includes. simpl.
      rewrite eqb_refl. reflexivity.
  - rewrite currentLogs_app. simpl. rewrite eqb_refl. reflexivity.
  - intros other Ho. rewrite currentLogs_app. simpl.
    destruct (Js.eqb (sessionId s) other) eqn:E.
    + apply eqb_eq in E. congruence.
    + apply app_nil_r.
Qed.

Lemma observer_message_joins_active_thread_witness :
  let s := mkApp 2 false [mkLog (lit "a") (lit "s1") 1 [] [] []]
                 (lit "s2") [] false in
  sessionId s <> []
  /\ sessions (logs (observerCallback (sessionId s) (lit "hello") (lit "u") 7 s))
              (lit "s2")
     = [lit "s1"; lit "s2"].
Proof.
  intros s. assert (H : sessionId s <> []) by discriminate.
  split; [exact H|].
  destruct (observer_message_joins_active_thread s (lit "hello") (lit "u") 7 H)
    as [E _].
  exact E.
Defined.

Lemma delivered_Forall (ss : list Sub) (payload : jsstring) (now : Z)
    (uuid : nat -> jsstring) (j : nat) :
  Forall (observerLog payload now) (delivered ss payload now uuid j).
Proof.
  revert j. induction ss as [|s r IH]; intros j; simpl; [constructor|].
  destruct (live s); [|apply IH].
  constructor; [|apply IH]. unfold observerLog. simpl. auto.
Qed.

(** X6: whatever the state of the listener effect, one observer event
    keeps the existing logs as they are, in place, and appends one log per
    installed callback; each appended log has no user tokens, the provider
    "Observer", the payload as response and the time of the delivery; no
    other cell of the state changes. *)
Theorem observer_event_appends_per_callback :
  forall (w : World) (payload : jsstring) (now : Z) (uuid : nat -> jsstring),
    let w' := step (ObserverEvent payload now uuid) w in
    exists new : list InteractionLog,
      logs (app w') = logs (app w) ++ new
      /\ List.length new = liveCount w
      /\ Forall (observerLog payload now) new
      /\ sessionId (app w') = sessionId (app w)
      /\ inputValue (app w') = inputValue (app w)
      /\ isThinking (app w') = isThinking (app w)
      /\ subs w' = subs w /\ sends w' = sends w.
Proof.
  intros w payload now uuid w'. subst w'.
  exists (delivered (subs w) payload now uuid 0).
  rewrite step_observer_app. simpl.
  split; [reflexivity|]. split; [apply delivered_length|].
  split; [apply delivered_Forall|].
  unfold step. destruct (deliver _ _ _ _ _ _). simpl. auto 6.
Qed.

(** ** The text of a submission *)

Lemma trimStart_split (s : jsstring) :
  exists pre, s = pre ++ trimStart s /\ forallb isWhiteSpace pre = true.
Proof.
  induction s as [|c r [pre [E H]]]; simpl.
  - exists []. auto.
  - destruct (isWhiteSpace c) eqn:Ec.
    + exists (c :: pre). simpl. rewrite Ec, H, <- E. auto.
    + exists []. auto.
Qed.

Lemma trimEnd_split (s : jsstring) :
  exists post, s = trimEnd s ++ post /\ forallb isWhiteSpace post = true.
Proof.
  destruct (trimStart_split (rev s)) as [pre [E H]].
  exists (rev pre). unfold trimEnd. split.
  - rewrite <- rev_app_distr, <- E, rev_involutive. reflexivity.
  - rewrite forallb_rev. exact H.
Qed.

Lemma trimStart_startsClean (s : jsstring) : startsClean (trimStart s) = true.
Proof.
  induction s as [|c r IH]; simpl; [reflexivity|].
  destruct (isWhiteSpace c) eqn:E; [exact IH|]. simpl. rewrite E. reflexivity.
Qed.

Lemma trimStart_id (s : jsstring) : startsClean s = true -> trimStart s = s.
Proof.
  destruct s as [|c r]; simpl; [reflexivity|].
  destruct (isWhiteSpace c); [discriminate | reflexivity].
Qed.

Lemma trimEnd_endsClean (s : jsstring) : endsClean (trimEnd s) = true.
Proof.
  unfold endsClean, trimEnd. rewrite rev_involutive.
  apply trimStart_startsClean.
Qed.

Lemma trimEnd_id (s : jsstring) : endsClean s = true -> trimEnd s = s.
Proof.
  unfold endsClean, trimEnd. intros H. rewrite (trimStart_id _ H).
  apply rev_involutive.
Qed.

Lemma trimEnd_startsClean (s : jsstring) :
  startsClean s = true -> startsClean (trimEnd s) = true.
Proof.
  intros H. destruct (trimEnd_split s) as [post [E _]].
  destruct (trimEnd s) as [|c r]; [reflexivity|].
  rewrite E in H. exact H.
Qed.

Lemma trim_clean (s : jsstring) :
  startsClean (trim s) = true /\ endsClean (trim s) = true.
Proof.
  unfold trim. split.
  - apply trimEnd_startsClean, trimStart_startsClean.
  - apply trimEnd_endsClean.
Qed.

Lemma trim_idempotent (s : jsstring) : trim (trim s) = trim s.
Proof.
  destruct (trim_clean s) as [H1 H2].
  unfold trim at 1. rewrite (trimStart_id _ H1). apply trimEnd_id, H2.
Qed.

Lemma trim_split (s : jsstring) :
  exists pre post,
    s = pre ++ trim s ++ post
    /\ forallb isWhiteSpace pre = true /\ forallb isWhiteSpace post = true.
Proof.
  destruct (trimStart_split s) as [pre [E1 H1]].
  destruct (trimEnd_split (trimStart s)) as [post [E2 H2]].
  exists pre, post. unfold trim. rewrite <- E2. auto.
Qed.

Lemma trimmed_trim (s : jsstring) :
  forallb isWhiteSpace s = false -> trimmed (trim s) = true.
Proof.
  intros H. unfold trimmed. rewrite trim_idempotent, eqb_refl, andb_true_r.
  destruct (truthy (trim s)) eqn:E; [reflexivity|].
  apply truthy_trim_false in E. congruence.
Qed.

(** X7: a submission that passes the guard takes as its text the input
    with white space removed at both ends and nothing else: the input is
    white space, then the text, then white space; the text is not empty,
    neither starts nor ends with white space, and trimming it again
    changes nothing.  The session id it takes is the active one. *)
Theorem executeSend_text :
  forall s : AppState,
    isThinking s = false ->
    forallb isWhiteSpace (inputValue s) = false ->
    exists text pre post,
      executeSend s
      = (setIsThinking true (setInputValue [] s),
         Some (AwaitFrame text (sessionId s)))
      /\ inputValue s = pre ++ text ++ post
      /\ forallb isWhiteSpace pre = true
      /\ forallb isWhiteSpace post = true
      /\ text <> []
      /\ startsClean text = true /\ endsClean text = true
      /\ trim text = text.
Proof.
  intros s Hb Hw.
  destruct (trim_split (inputValue s)) as [pre [post [E [H1 H2]]]].
  exists (trim (inputValue s)), pre, post.
  split; [apply executeSend_starts; assumption|].
  split; [exact E|]. split; [exact H1|]. split; [exact H2|].
  destruct (trim_clean (inputValue s)) as [C1 C2].
  split; [|split; [exact C1 | split; [exact C2 | apply trim_idempotent]]].
  intros Hn. apply trim_nil in Hn. congruence.
Qed.

Lemma executeSend_text_witness :
  let s := mkApp 5 true [] (lit "s1") (lit "  run tests ") false in
  isThinking s = false
  /\ forallb isWhiteSpace (inputValue s) = false
  /\ exists text pre post,
       executeSend s
       = (setIsThinking true (setInputValue [] s),
          Some (AwaitFrame text (sessionId s)))
       /\ inputValue s = pre ++ text ++ post
       /\ trim text = text.
Proof.
  intros s. split; [reflexivity|]. split; [reflexivity|].
  destruct (executeSend_text s eq_refl eq_refl)
    as [text [pre [post [E [I [_ [_ [_ [_ [_ T]]]]]]]]]].
  exists text, pre, post. auto.
Defined.

(** X8: [handleKeyDown] starts a submission only on Enter without Shift
    outside a composition.  Any other key, Shift+Enter and Enter during a
    composition leave the state alone and do not prevent the default
    action (the line break is inserted).  A plain Enter always prevents
    the default action, also when the guard of [executeSend] then refuses
    the submission (busy, or blank input): no line break and no change. *)
Theorem handleKeyDown_gating :
  forall (key : jsstring) (shiftKey isComposing : bool) (s : AppState),
    (key <> lit "Enter" \/ shiftKey = true \/ isComposing = true ->
     handleKeyDown key shiftKey isComposing s = (s, None, false))
    /\ (key = lit "Enter" -> shiftKey = false -> isComposing = false ->
        (isThinking s = true
         \/ forallb isWhiteSpace (inputValue s) = true ->
         handleKeyDown key shiftKey isComposing s = (s, None, true))
        /\ (isThinking s = false ->
            forallb isWhiteSpace (inputValue s) = false ->
            handleKeyDown key shiftKey isComposing s
            = (setIsThinking true (setInputValue [] s),
               Some (AwaitFrame (trim (inputValue s)) (sessionId s)),
               true))).
Proof.
  intros key shiftKey isComposing s. unfold handleKeyDown. split.
  - intros [H | [-> | ->]].
    + apply eqb_neq in H. rewrite H. reflexivity.
    + rewrite orb_true_r. destruct (Js.eqb key _); reflexivity.
    + destruct (Js.eqb key _); reflexivity.
  - intros -> -> ->. rewrite eqb_refl. simpl. split.
    + intros H. rewrite (executeSend_noop s H). reflexivity.
    + intros Hb Hw. rewrite (executeSend_starts s Hb Hw). reflexivity.
Qed.

Lemma handleKeyDown_gating_witness :
  let s := mkApp 5 true [] (lit "s1") (lit "  ") false in
  lit "Enter" = lit "Enter"
  /\ forallb isWhiteSpace (inputValue s) = true
  /\ handleKeyDown (lit "Enter") false false s = (s, None, true)
  /\ handleKeyDown (lit "Enter") true false s = (s, None, false).
Proof.
  intros s.
  destruct (handleKeyDown_gating (lit "Enter") false false s) as [_ H].
  destruct (H eq_refl eq_refl eq_refl) as [H1 _].
  destruct (handleKeyDown_gating (lit "Enter") true false s) as [H2 _].
  split; [reflexivity|]. split; [reflexivity|].
  split; [apply H1; right; reflexivity|].
  apply H2. right. left. reflexivity.
Defined.

(** ** The calls each event makes *)

Lemma calls_commitEffects (before : jsstring) (w : World) :
  exists cs, calls (commitEffects before w) = calls w ++ cs
             /\ forallb quiet cs = true.
Proof.
  unfold commitEffects. destruct (Js.eqb _ _).
  - exists []. rewrite app_nil_r. auto.
  - eexists. split; [reflexivity|]. simpl.
    destruct (nth_error _ _) as [s|]; [|reflexivity].
    destruct (registered s); reflexivity.
Qed.

Lemma deliver_calls_quiet (ss : list Sub) (payload : jsstring) (now : Z)
    (uuid : nat -> jsstring) (j : nat) (a : AppState) :
  forallb quiet (snd (deliver ss payload now uuid j a)) = true.
Proof.
  revert j a. induction ss as [|s r IH]; intros j a; simpl; [reflexivity|].
  destruct (live s); [|apply IH].
  specialize (IH (S j) (observerCallback (captured s) payload (uuid j) now a)).
  destruct (deliver r payload now uuid (S j) _) as [a2 cs]. simpl in *.
  exact IH.
Qed.

(** Every event appends to the calls made so far, and what it appends is
    quiet except for the start-up cue of the completing tick, the ask of
    a submission resumed from the animation frame, and the delete call of
    a confirmed click on a listed thread. *)
Lemma step_calls (e : Event) (w : World) :
  exists cs,
    calls (step e w) = calls w ++ cs
    /\ (forallb quiet cs = true \/ loudCalls e w cs).
Proof.
  destruct e.
  - (* Tick *)
    unfold loudCalls, step.
    destruct (bootCompleted (app w)) eqn:Ec.
    + exists []. rewrite app_nil_r. auto.
    + unfold bootTick. destruct (_ >=? _); simpl.
      * eexists. split; [reflexivity|]. right. auto.
      * eexists. split; [reflexivity|]. left. reflexivity.
  - unfold step. destruct (initPending w).
    + destruct (initSettled r uuid (app w)) as [a1 cs0] eqn:Ei.
      match goal with
      | |- context [commitEffects ?b ?W] =>
          destruct (calls_commitEffects b W) as [cs [E Q]]
      end.
      exists (cs0 ++ cs). rewrite E. simpl. rewrite app_assoc.
      split; [reflexivity|]. left. rewrite forallb_app, Q, andb_true_r.
      unfold initSettled in Ei. destruct r.
      * destruct (last_log a); injection Ei as _ <-; reflexivity.
      * injection Ei as _ <-. reflexivity.
    + exists []. rewrite app_nil_r. auto.
  - unfold step. exists []. rewrite app_nil_r.
    destruct (isThinking (app w)); simpl; rewrite ?app_nil_r; auto.
  - unfold step. exists []. rewrite app_nil_r.
    destruct (executeSend (app w)) as [a1 [t|]]; auto.
  - unfold step, loudCalls.
    destruct (nth_error (sends w) k) as [t|] eqn:Ek.
    + destruct t as [text sid| |], r as [x|err]; simpl;
        eexists; (split; [reflexivity|]);
        try (left; reflexivity);
        right; exists text, sid; auto.
    + exists []. rewrite app_nil_r. auto.
  - unfold step.
    match goal with
    | |- context [commitEffects ?b ?W] =>
        destruct (calls_commitEffects b W) as [cs [E Q]]
    end.
    exists cs. rewrite E. simpl. rewrite app_nil_r. auto.
  - unfold step. destruct (includes _ _).
    + match goal with
      | |- context [commitEffects ?b ?W] =>
          destruct (calls_commitEffects b W) as [cs [E Q]]
      end.
      exists cs. rewrite E. simpl. rewrite app_nil_r. auto.
    + exists []. rewrite app_nil_r. auto.
  - unfold step, loudCalls. destruct (includes _ _) eqn:Ei.
    + destruct confirmed; simpl.
      * eexists. split; [reflexivity|]. right. auto.
      * exists []. rewrite app_nil_r. auto.
    + exists []. rewrite app_nil_r. auto.
  - unfold step. destruct (nth_error (deletes w) k) as [t|].
    + destruct (deleteResumed t r uuid (app w)) as [[a1 t1] cs0] eqn:Ed.
      match goal with
      | |- context [commitEffects ?b ?W] =>
          destruct (calls_commitEffects b W) as [cs [E Q]]
      end.
      exists (cs0 ++ cs). rewrite E. simpl. rewrite app_assoc.
      split; [reflexivity|]. left. rewrite forallb_app, Q, andb_true_r.
      unfold deleteResumed in Ed.
      destruct t, r; try destruct (Js.eqb _ _);
        injection Ed as _ _ <-; reflexivity.
    + exists []. rewrite app_nil_r. auto.
  - unfold step. exists []. rewrite app_nil_r.
    destruct (nth_error (subs w) k) as [s|]; [|auto].
    destruct (registered s); auto.
  - unfold step.
    pose proof (deliver_calls_quiet (subs w) payload now uuid 0 (app w)) as Q.
    destruct (deliver _ _ _ _ _ _) as [a1 cs]. simpl in *.
    exists cs. auto.
Qed.

Lemma quiet_filters (cs : list Call) :
  forallb quiet cs = true ->
  filter isStartupCue cs = [] /\ filter isAskCall cs = []
  /\ filter isDeleteCall cs = [] /\ forallb askOK cs = true.
Proof.
  induction cs as [|c r IH]; simpl; [auto|].
  intros H. apply andb_true_iff in H. destruct H as [Hc Hr].
  destruct (IH Hr) as [I1 [I2 [I3 I4]]]. unfold quiet in Hc.
  destruct (isStartupCue c) eqn:E1; [discriminate|].
  destruct (isAskCall c) eqn:E2; [discriminate|].
  destruct (isDeleteCall c) eqn:E3; [discriminate|].
  rewrite I1, I2, I3, I4.
  destruct c; try discriminate; auto.
Qed.

Lemma loud_no_cue_outside_tick (e : Event) (w : World) (cs : list Call) :
  e <> Tick -> forallb quiet cs = true \/ loudCalls e w cs ->
  filter isStartupCue cs = [].
Proof.
  intros He [Q | L]; [apply quiet_filters, Q|].
  destruct e; try contradiction; try congruence.
  - destruct L as [text [sid [_ ->]]]. reflexivity.
  - destruct confirmed; [|contradiction]. destruct L as [_ ->]. reflexivity.
Qed.

Lemma loud_no_ask_outside_resume (e : Event) (w : World) (cs : list Call) :
  (forall k r, e <> SendResumed k r) ->
  forallb quiet cs = true \/ loudCalls e w cs ->
  filter isAskCall cs = [] /\ forallb askOK cs = true.
Proof.
  intros He [Q | L]; [split; apply quiet_filters, Q|].
  destruct e; try contradiction.
  - destruct L as [-> _]. split; reflexivity.
  - exfalso. apply (He k r). reflexivity.
  - destruct confirmed; [|contradiction]. destruct L as [_ ->].
    split; reflexivity.
Qed.

Lemma step_bootCompleted_frame (e : Event) (w : World) :
  e <> Tick -> bootCompleted (app (step e w)) = bootCompleted (app w).
Proof.
  intros He.
  change (bootCompleted (app (step e w))) with (snd (bootOf (step e w))).
  rewrite (step_boot_frame e w He). reflexivity.
Qed.

Lemma step_cue (e : Event) (w : World) :
  cueCount w = (if bootCompleted (app w) then 1 else 0)%nat ->
  cueCount (step e w)
  = (if bootCompleted (app (step e w)) then 1 else 0)%nat.
Proof.
  intros H. unfold cueCount in *.
  destruct e;
    try (match goal with
         | |- context [step ?e w] =>
             destruct (step_calls e w) as [cs [E L]];
             assert (B : bootCompleted (app (step e w))
                         = bootCompleted (app w))
               by (apply step_bootCompleted_frame; discriminate);
             rewrite E, B, filter_app,
               (loud_no_cue_outside_tick e w cs ltac:(discriminate) L),
               app_nil_r;
             exact H
         end).
  unfold step. destruct (bootCompleted (app w)) eqn:Ec; [rewrite Ec; exact H|].
  unfold bootTick. destruct (_ >=? _); simpl; rewrite filter_app; simpl.
  - rewrite length_app, H. reflexivity.
  - rewrite Ec, app_nil_r. exact H.
Qed.

(** X9: the start-up cue is played exactly once, by the tick that
    completes the boot sequence, and by nothing else: in every reachable
    state the calls made so far hold it once if [bootCompleted] is true
    and not at all otherwise. *)
Theorem startup_cue_once :
  forall es : list Event,
    let w := run es initialWorld in
    cueCount w = (if bootCompleted (app w) then 1 else 0)%nat.
Proof.
  intros es. simpl.
  assert (H : cueCount initialWorld
              = (if bootCompleted (app initialWorld) then 1 else 0)%nat)
    by reflexivity.
  revert H. generalize initialWorld.
  induction es as [|e r IH]; intros w0 H; [exact H|].
  rewrite run_cons. apply IH, step_cue, H.
Qed.

Lemma step_askInv (e : Event) (w : World) (n : nat) :
  askInv n w ->
  askInv (match e with ExecuteSend => S n | _ => n end) (step e w).
Proof.
  intros [Inv [Hc [Ht Hn]]].
  pose proof (step_singleFlight e w Inv) as Inv'.
  unfold askInv, asksIssued, framesPending in *.
  split; [exact Inv'|]. clear Inv'.
  pose proof (step_submit_frame e w) as F.
  destruct e;
    try (lazymatch type of F with
         | _ /\ _ =>
             match goal with
             | |- context [step ?e w] =>
                 destruct F as [F0 _];
                 destruct (step_calls e w) as [cs [E L]];
                 destruct (loud_no_ask_outside_resume e w cs
                             ltac:(intros; discriminate) L) as [L1 L2];
                 rewrite F0, E, forallb_app, filter_app, L1, L2, Hc,
                   app_nil_r;
                 auto
             end
         end).
  - (* Typed *)
    unfold step. destruct (isThinking (app w)); simpl;
      rewrite ?app_nil_r; auto.
  - (* ExecuteSend *)
    unfold step, executeSend.
    destruct (truthy (trim (inputValue (app w)))) eqn:Et; simpl;
      [|split; [exact Hc | split; [exact Ht | lia]]].
    destruct (isThinking (app w)) eqn:Eb; simpl;
      [split; [exact Hc | split; [exact Ht | lia]]|].
    destruct Inv as [[Hs _] | [_ [Hb _]]]; [|congruence].
    rewrite Hs in *. simpl in *.
    split; [exact Hc|]. split; [|lia].
    rewrite andb_true_r. apply trimmed_trim.
    destruct (forallb isWhiteSpace (inputValue (app w))) eqn:Ew;
      [|reflexivity].
    apply truthy_trim_false in Ew. congruence.
  - (* SendResumed *)
    unfold step. destruct (nth_error (sends w) k) as [t|] eqn:Ek; [|auto].
    destruct Inv as [[Hs _] | [[t0 Hs] _]].
    + rewrite Hs in Ek. destruct k; discriminate.
    + rewrite Hs in *. destruct k as [|k]; [|destruct k; discriminate].
      injection Ek as ->. simpl in Ht, Hn.
      destruct t as [text sid| |], r as [x|err]; simpl;
        rewrite ?forallb_app, ?filter_app, ?length_app, ?Hc; simpl;
        rewrite ?andb_true_r in *;
        (split; [try reflexivity; try exact Ht|]);
        (split; [reflexivity|]); simpl in *; lia.
Qed.

Lemma initialWorld_askInv : askInv O initialWorld.
Proof.
  split; [left; split; reflexivity|]. repeat split. reflexivity.
Qed.

Lemma run_askInv (es : list Event) (w : World) (n : nat) :
  askInv n w -> askInv (n + execs es) (run es w).
Proof.
  revert w n. induction es as [|e r IH]; intros w n H.
  - simpl. rewrite Nat.add_0_r. exact H.
  - rewrite run_cons. apply step_askInv with (e := e) in H.
    destruct e; simpl execs;
      try (apply IH; exact H).
    replace (n + S (execs r))%nat with (S n + execs r)%nat by lia.
    apply IH. exact H.
Qed.

(** X10: the backend is never asked with an empty or untrimmed input, and
    never more often than [executeSend] was called: in every reachable
    state each [ask_axis] call made so far carries a non-empty text that
    [trim] leaves unchanged, and the number of these calls is at most the
    number of Enter submissions among the events. *)
Theorem ask_calls_trimmed_and_bounded :
  forall es : list Event,
    let w := run es initialWorld in
    forallb askOK (calls w) = true
    /\ (asksIssued w <= execs es)%nat.
Proof.
  intros es. simpl.
  destruct (run_askInv es initialWorld O initialWorld_askInv)
    as [_ [Hc [_ Hn]]].
  split; [exact Hc | simpl in Hn; lia].
Qed.

(** X11: the ask call of a submission carries the session id that was
    active when [executeSend] was called, also when the active session
    changes (new thread, thread click) while the submission waits for the
    animation frame. *)
Theorem ask_carries_call_time_session :
  forall (w : World) (es1 : list Event) (r0 : Settled (list InteractionLog)),
    reachable w ->
    isThinking (app w) = false ->
    forallb isWhiteSpace (inputValue (app w)) = false ->
    forallb otherEvent es1 = true ->
    let w0 := run (ExecuteSend :: es1) w in
    calls (step (SendResumed 0 r0) w0)
    = calls w0
      ++ [ ConsoleLog [trim (inputValue (app w)); sessionId (app w)];
           InvokeAsk (trim (inputValue (app w))) (sessionId (app w)) ].
Proof.
  intros w es1 r0 Hr Hb Hw He w0.
  destruct (submit_until_ask w es1 r0 Hr Hb Hw He) as [_ [_ [_ E]]].
  exact E.
Qed.

Lemma ask_carries_call_time_session_witness :
  let w := run [InitSettled
                  (Resolved [mkLog (lit "a") (lit "s1") 1 [] [] []])
                  (lit "u0");
                Typed (lit "hi")] initialWorld in
  let w0 := run (ExecuteSend :: [NewChat (lit "u1")]) w in
  reachable w
  /\ sessionId (app w) = lit "s1" /\ sessionId (app w0) = lit "u1"
  /\ exists cs,
       calls (step (SendResumed 0 (Resolved [])) w0)
       = cs ++ [InvokeAsk (lit "hi") (lit "s1")].
Proof.
  intros w w0.
  assert (R : reachable w).
  { exists [InitSettled (Resolved [mkLog (lit "a") (lit "s1") 1 [] [] []])
                        (lit "u0");
            Typed (lit "hi")]. reflexivity. }
  split; [exact R|]. split; [reflexivity|]. split; [reflexivity|].
  pose proof (ask_carries_call_time_session w [NewChat (lit "u1")]
                (Resolved []) R eq_refl eq_refl eq_refl) as E.
  exists (calls w0 ++ [ConsoleLog [lit "hi"; lit "s1"]]).
  rewrite <- app_assoc. exact E.
Defined.

(** ** Session deletion *)

Lemma deletes_commitEffects (before : jsstring) (w : World) :
  deletes (commitEffects before w) = deletes w.
Proof. unfold commitEffects. destruct (Js.eqb _ _); reflexivity. Qed.

Lemma step_deletes_frame (e : Event) (w : World) :
  notDeleteEvent e = true -> deletes (step e w) = deletes w.
Proof.
  destruct e as [| | | | | | |tgt [|]| | |]; try discriminate; intros _;
    unfold step.
  - destruct (bootCompleted (app w)); [reflexivity|].
    destruct (bootTick (app w)). reflexivity.
  - destruct (initPending w); [|reflexivity].
    destruct (initSettled _ _ _). rewrite deletes_commitEffects. reflexivity.
  - destruct (isThinking (app w)); reflexivity.
  - destruct (executeSend (app w)) as [a1 [t|]]; reflexivity.
  - destruct (nth_error (sends w) k); [|reflexivity].
    destruct (sendResumed _ _ _) as [[a1 t1] cs]. reflexivity.
  - rewrite deletes_commitEffects. reflexivity.
  - destruct (includes _ _); [|reflexivity].
    rewrite deletes_commitEffects. reflexivity.
  - destruct (includes _ _); reflexivity.
  - destruct (nth_error (subs w) k) as [s|]; [|reflexivity].
    destruct (registered s); reflexivity.
  - destruct (deliver _ _ _ _ _ _). reflexivity.
Qed.

Lemma run_deletes_frame (es : list Event) (w : World) :
  forallb notDeleteEvent es = true -> deletes (run es w) = deletes w.
Proof.
  revert w. induction es as [|e r IH]; intros w H; [reflexivity|].
  simpl in H. apply andb_true_iff in H. destruct H as [He Hr].
  rewrite run_cons, (IH _ Hr). apply step_deletes_frame, He.
Qed.

Lemma step_delete_resumed (w : World) (t : DeleteTask)
    (r : Settled (list InteractionLog)) (uuid : jsstring) :
  deletes w = [t] ->
  let res := deleteResumed t r uuid (app w) in
  let w' := step (DeleteResumed 0 r uuid) w in
  app w' = fst (fst res)
  /\ deletes w' = match snd (fst res) with Some t' => [t'] | None => [] end
  /\ exists cs, calls w' = calls w ++ snd res ++ cs
                /\ forallb quiet cs = true.
Proof.
  intros Hd res w'. subst w'. unfold step. rewrite Hd. cbn [nth_error].
  subst res. set (res := deleteResumed t r uuid (app w)).
  destruct res as [[a1 t1] cs0].
  rewrite app_commitEffects, deletes_commitEffects. simpl.
  split; [reflexivity|]. split; [destruct t1; reflexivity|].
  match goal with
  | |- context [commitEffects ?b ?W] =>
      destruct (calls_commitEffects b W) as [cs [E Q]]
  end.
  exists cs. rewrite E. simpl. rewrite app_assoc. auto.
Qed.

Lemma step_delete_rejected (w : World) (t : DeleteTask)
    (err uuid : jsstring) :
  deletes w = [t] ->
  step (DeleteResumed 0 (Rejected err) uuid) w
  = mkWorld (app w) (sends w) [] (initPending w) (subs w)
            (calls w ++ [ConsoleError err]).
Proof.
  intros Hd. unfold step. rewrite Hd. simpl nth_error.
  destruct t; simpl; unfold commitEffects; simpl;
    rewrite eqb_refl; reflexivity.
Qed.

(** X12: a confirmed delete of a listed thread, followed until the
    history fetched after it arrives: the log collection becomes the
    fetched history; the active session becomes the fresh id exactly when
    the deleted thread was the active one at the time of the click, and is
    otherwise left as it is at that moment, whatever happened while the
    two calls were outstanding.  If the delete call rejects, the error is
    logged, no history is fetched and the state is left as it is. *)
Theorem delete_session_flow :
  forall (w : World) (tgt : jsstring) (es1 es2 : list Event)
         (x updated : list InteractionLog) (u1 uuid err : jsstring),
    deletes w = [] ->
    includes (sessions (logs (app w)) (sessionId (app w))) tgt = true ->
    forallb notDeleteEvent es1 = true ->
    forallb notDeleteEvent es2 = true ->
    let w1 := run (DeleteClicked tgt true :: es1) w in
    let w2 := run (DeleteResumed 0 (Resolved x) u1 :: es2) w1 in
    let w3 := step (DeleteResumed 0 (Resolved updated) uuid) w2 in
    let failed := step (DeleteResumed 0 (Rejected err) uuid) w1 in
    (logs (app w3) = updated
     /\ sessionId (app w3)
        = (if Js.eqb tgt (sessionId (app w)) then uuid
           else sessionId (app w2))
     /\ deletes w3 = [])
    /\ (app failed = app w1 /\ deletes failed = []
        /\ filter isFetchHistory (calls failed)
           = filter isFetchHistory (calls w1)
        /\ In (ConsoleError err) (calls failed)).
Proof.
  intros w tgt es1 es2 x updated u1 uuid err Hd Hl H1 H2 w1 w2 w3 failed.
  assert (D1 : deletes w1 = [AwaitDelete tgt (sessionId (app w))]).
  { subst w1. rewrite run_cons, (run_deletes_frame _ _ H1).
    unfold step. rewrite Hl. simpl. rewrite Hd. reflexivity. }
  assert (D2 : deletes w2 = [AwaitDeleteFetch tgt (sessionId (app w))]).
  { subst w2. rewrite run_cons, (run_deletes_frame _ _ H2).
    destruct (step_delete_resumed w1 _ (Resolved x) u1 D1) as [_ [E _]].
    exact E. }
  split.
  - destruct (step_delete_resumed w2 _ (Resolved updated) uuid D2)
      as [Ea [Ed _]].
    fold w3 in Ea, Ed. rewrite Ea, Ed. simpl.
    destruct (Js.eqb tgt (sessionId (app w))); simpl; auto.
  - subst failed. rewrite (step_delete_rejected w1 _ err uuid D1). simpl.
    split; [reflexivity|]. split; [reflexivity|]. split.
    + rewrite filter_app. simpl. apply app_nil_r.
    + apply in_or_app. right. left. reflexivity.
Qed.

Lemma delete_session_flow_witness :
  let la := mkLog (lit "a") (lit "s1") 1 [] [] [] in
  let lb := mkLog (lit "b") (lit "s2") 2 [] [] [] in
  let w := run [InitSettled (Resolved [la; lb]) (lit "u0")] initialWorld in
  let w1 := run (DeleteClicked (lit "s2") true :: [SelectSession (lit "s1")])
                w in
  let w2 := run (DeleteResumed 0 (Resolved []) (lit "u1") :: []) w1 in
  deletes w = []
  /\ sessionId (app w) = lit "s2" /\ sessionId (app w2) = lit "s1"
  /\ sessionId (app (step (DeleteResumed 0 (Resolved [la]) (lit "u2")) w2))
     = lit "u2"
  /\ logs (app (step (DeleteResumed 0 (Resolved [la]) (lit "u2")) w2)) = [la].
Proof.
  intros la lb w w1 w2.
  split; [reflexivity|]. split; [reflexivity|]. split; [reflexivity|].
  destruct (delete_session_flow w (lit "s2") [SelectSession (lit "s1")] []
              [] [la] (lit "u1") (lit "u2") (lit "boom")
              eq_refl eq_refl eq_refl eq_refl) as [[L [S _]] _].
  split; [exact S | exact L].
Defined.

Lemma step_delete_calls (e : Event) (w : World) :
  notConfirmedClick e = true ->
  filter isDeleteCall (calls (step e w)) = filter isDeleteCall (calls w).
Proof.
  intros He. destruct (step_calls e w) as [cs [E L]].
  rewrite E, filter_app.
  assert (Hq : filter isDeleteCall cs = []).
  { destruct L as [Q | L]; [apply quiet_filters, Q|].
    destruct e; try contradiction.
    - destruct L as [-> _]. reflexivity.
    - destruct L as [text [sid [_ ->]]]. reflexivity.
    - destruct confirmed; [discriminate | contradiction]. }
  rewrite Hq. apply app_nil_r.
Qed.

(** X13: [delete_history] is never invoked without a confirmed click:
    over any events without one, the delete calls made so far stay the
    same, and a click that is declined in the confirm dialog changes
    nothing at all. *)
Theorem no_delete_without_confirmation :
  (forall (es : list Event) (w : World),
      forallb notConfirmedClick es = true ->
      filter isDeleteCall (calls (run es w)) = filter isDeleteCall (calls w))
  /\ (forall (w : World) (tgt : jsstring),
         step (DeleteClicked tgt false) w = w).
Proof.
  split.
  - intros es. induction es as [|e r IH]; intros w H; [reflexivity|].
    simpl in H. apply andb_true_iff in H. destruct H as [He Hr].
    rewrite run_cons, (IH _ Hr). apply step_delete_calls, He.
  - intros w tgt. unfold step. destruct (includes _ _); reflexivity.
Qed.

Lemma no_delete_without_confirmation_witness :
  let es := [ InitSettled (Resolved [mkLog (lit "a") (lit "s1") 1 [] [] []])
                          (lit "u0");
              DeleteClicked (lit "s1") false; Tick ] in
  forallb notConfirmedClick es = true
  /\ filter isDeleteCall (calls (run es initialWorld)) = [].
Proof.
  intros es. destruct no_delete_without_confirmation as [H _].
  split; [reflexivity|]. exact (H es initialWorld eq_refl).
Defined.

(** ** Boot log rendering *)

Lemma pad_two_digits (n : N) :
  (n < 100)%N -> padStart2 (numToString n) = twoDigits n.
Proof.
  intros H.
  assert (All : forallb (fun k => Js.eqb (padStart2 (numToString k))
                                         (twoDigits k))
                        (map N.of_nat (seq 0 100)) = true)
    by (vm_compute; reflexivity).
  rewrite forallb_forall in All. apply eqb_eq, All.
  rewrite <- (N2Nat.id n). apply in_map, in_seq. lia.
Qed.

Lemma cons_inj {A : Type} (x y : A) (l l' : list A) :
  x :: l = y :: l' -> x = y /\ l = l'.
Proof. intros H. injection H as H1 H2. auto. Qed.

Lemma twoDigits_inj (a b : N) :
  (a < 100)%N -> (b < 100)%N -> twoDigits a = twoDigits b -> a = b.
Proof.
  intros Ha Hb H. unfold twoDigits in H.
  apply cons_inj in H. destruct H as [H1 H].
  apply cons_inj in H. destruct H as [H2 _].
  apply N.add_cancel_l in H1, H2.
  rewrite (N.div_mod' a 10), (N.div_mod' b 10), H1, H2. reflexivity.
Qed.

Lemma formatBootTime_digits (d : DateFields) :
  validFields d ->
  formatBootTime d
  = twoDigits (hours d) ++ [colon] ++ twoDigits (minutes d)
    ++ [colon] ++ twoDigits (seconds d).
Proof.
  intros [Hh [Hm Hs]]. unfold formatBootTime.
  rewrite !pad_two_digits by lia. reflexivity.
Qed.

Lemma formatBootTime_not_placeholder (d : DateFields) :
  validFields d -> formatBootTime d <> NO_TIME.
Proof.
  intros V. rewrite (formatBootTime_digits d V).
  assert (N0 : NO_TIME = [45; 45; 58; 45; 45; 58; 45; 45]%N)
    by reflexivity.
  rewrite N0. unfold twoDigits. cbn [app]. intros H.
  apply cons_inj in H. destruct H as [H _].
  revert H. generalize (hours d / 10)%N. intros q H. lia.
Qed.

(** X14: for the fields of a valid local time [formatBootTime] yields
    exactly eight code units, two decimal digits each for hours, minutes
    and seconds with a colon between them; the result is never the
    placeholder "--:--:--", and different times give different strings. *)
Theorem formatBootTime_shape :
  forall d : DateFields,
    validFields d ->
    formatBootTime d
    = twoDigits (hours d) ++ [colon] ++ twoDigits (minutes d)
      ++ [colon] ++ twoDigits (seconds d)
    /\ List.length (formatBootTime d) = 8%nat
    /\ formatBootTime d <> NO_TIME
    /\ (forall d' : DateFields,
           validFields d' -> formatBootTime d' = formatBootTime d -> d' = d).
Proof.
  intros d [Hh [Hm Hs]].
  assert (E : forall x, validFields x ->
                formatBootTime x
                = twoDigits (hours x) ++ [colon] ++ twoDigits (minutes x)
                  ++ [colon] ++ twoDigits (seconds x)).
  { intros x [Xh [Xm Xs]]. unfold formatBootTime.
    rewrite !pad_two_digits by lia. reflexivity. }
  rewrite (E d (conj Hh (conj Hm Hs))).
  split; [reflexivity|]. split; [reflexivity|]. split.
  - rewrite <- (E d (conj Hh (conj Hm Hs))).
    apply formatBootTime_not_placeholder. exact (conj Hh (conj Hm Hs)).
  - intros d' V' H. rewrite (E d' V') in H. destruct V' as [Xh [Xm Xs]].
    unfold twoDigits in H. cbn [app] in H.
    apply cons_inj in H. destruct H as [A1 H].
    apply cons_inj in H. destruct H as [A2 H].
    apply cons_inj in H. destruct H as [_ H].
    apply cons_inj in H. destruct H as [B1 H].
    apply cons_inj in H. destruct H as [B2 H].
    apply cons_inj in H. destruct H as [_ H].
    apply cons_inj in H. destruct H as [C1 H].
    apply cons_inj in H. destruct H as [C2 _].
    assert (Eh : hours d' = hours d)
      by (apply twoDigits_inj; try lia; unfold twoDigits; congruence).
    assert (Em : minutes d' = minutes d)
      by (apply twoDigits_inj; try lia; unfold twoDigits; congruence).
    assert (Es : seconds d' = seconds d)
      by (apply twoDigits_inj; try lia; unfold twoDigits; congruence).
    destruct d, d'. simpl in *. congruence.
Qed.

Lemma formatBootTime_shape_witness :
  validFields (mkFields 9 5 59)
  /\ formatBootTime (mkFields 9 5 59) = lit "09:05:59".
Proof.
  assert (V : validFields (mkFields 9 5 59))
    by (unfold validFields; simpl; lia).
  split; [exact V|].
  destruct (formatBootTime_shape _ V) as [E _]. rewrite E. reflexivity.
Defined.

Lemma mapi_from_steps {B : Type} (f : BootStep -> Z -> B) (g : B -> BootStep)
    (i : Z) (l : list BootStep) :
  (forall s k, g (f s k) = s) -> map g (mapi_from f i l) = l.
Proof.
  intros H. revert i. induction l as [|x r IH]; intros i; simpl;
    [reflexivity|].
  rewrite H, IH. reflexivity.
Qed.

(** X15: whatever the cursor and the completion flag, the rendered boot
    log has one line per boot step, in the order of [BOOT_STEPS] and with
    the step's own id, label and detail, and no line ever has the status
    failed. *)
Theorem rendered_steps_shape :
  forall (fields : Z -> DateFields) (bootStart i : Z) (c : bool),
    map r_step (renderedSteps fields bootStart i c) = BOOT_STEPS
    /\ Forall (fun r => status r <> failed)
              (renderedSteps fields bootStart i c).
Proof.
  intros fields bootStart i c. split.
  - unfold renderedSteps, mapi. apply mapi_from_steps. reflexivity.
  - apply Forall_forall. intros r Hr.
    apply In_nth_error in Hr. destruct Hr as [j Hj].
    apply rendered_nth in Hj. destruct Hj as [_ [Hs _]]. rewrite Hs.
    unfold stepStatus.
    destruct (_ <? _); [discriminate|].
    destruct (_ && _); [discriminate|].
    destruct (_ && _); discriminate.
Qed.

(** X16: with a clock that answers valid local times, a boot step shows
    the placeholder exactly while it is beyond the cursor; once reached,
    step [j] shows the boot start plus [j] intervals, whatever the cursor
    and the completion flag are, so a time stamp that is shown never
    changes afterwards. *)
Theorem rendered_timestamp_stable :
  forall (fields : Z -> DateFields) (bootStart i : Z) (c : bool)
         (j : nat) (r : RenderedStep),
    (forall t : Z, validFields (fields t)) ->
    nth_error (renderedSteps fields bootStart i c) j = Some r ->
    (Z.of_nat j <= i ->
     r_timestamp r
     = formatBootTime (fields (bootStart + Z.of_nat j * STEP_INTERVAL_MS))
     /\ r_timestamp r <> NO_TIME)
    /\ (i < Z.of_nat j -> r_timestamp r = NO_TIME).
Proof.
  intros fields bootStart i c j r Hv Hj.
  apply rendered_nth in Hj. destruct Hj as [_ [_ Ht]]. rewrite Ht. split.
  - intros Hle. destruct (Z.leb_spec (Z.of_nat j) i); [|lia].
    rewrite Z.min_l by lia. split; [reflexivity|].
    apply formatBootTime_not_placeholder, Hv.
  - intros Hgt. destruct (Z.leb_spec (Z.of_nat j) i); [lia|reflexivity].
Qed.

Lemma rendered_timestamp_stable_witness :
  let fields := fun t : Z => mkFields 9 5 (Z.to_N ((t / 1000) mod 60)) in
  (forall t : Z, validFields (fields t))
  /\ map r_timestamp (renderedSteps fields 0 1 false)
     = [lit "09:05:00"; lit "09:05:00"; NO_TIME; NO_TIME; NO_TIME; NO_TIME].
Proof.
  intros fields.
  assert (V : forall t : Z, validFields (fields t)).
  { intros t. unfold validFields, fields. simpl.
    pose proof (Z.mod_pos_bound (t / 1000) 60 ltac:(lia)). lia. }
  split; [exact V|].
  pose proof (rendered_timestamp_stable fields 0 1 false 1
                (mkRendered (mkStep 2 (lit "Gemini Engine")
                               (Some (lit "Logic layer online (reasoning / planning)")))
                            running (lit "09:05:00")) V eq_refl) as [H _].
  destruct (H ltac:(simpl; lia)) as [_ _]. reflexivity.
Defined.

Lemma step_completed_boot (e : Event) (w : World) :
  bootCompleted (app w) = true -> bootOf (step e w) = bootOf w.
Proof.
  intros Hc. destruct e; try (apply step_boot_frame; discriminate).
  unfold step. rewrite Hc. reflexivity.
Qed.

Lemma run_completed_boot (es : list Event) (w : World) :
  bootCompleted (app w) = true -> bootOf (run es w) = bootOf w.
Proof.
  revert w. induction es as [|e r IH]; intros w Hc; [reflexivity|].
  rewrite run_cons.
  pose proof (step_completed_boot e w Hc) as E.
  rewrite IH; [exact E|].
  change (bootCompleted (app (step e w))) with (snd (bootOf (step e w))).
  rewrite E. exact Hc.
Qed.

(** X17: boot completion is final.  In a reachable state with
    [bootCompleted] set, every line of the boot log is rendered ok, a
    further tick of the interval changes nothing, and no later event
    changes the cursor or clears the flag. *)
Theorem boot_completion_final :
  forall w : World,
    reachable w ->
    bootCompleted (app w) = true ->
    (forall (fields : Z -> DateFields) (bootStart : Z),
        map status
            (renderedSteps fields bootStart (bootIndex (app w))
               (bootCompleted (app w)))
        = [ok; ok; ok; ok; ok; ok])
    /\ step Tick w = w
    /\ (forall es : list Event, bootOf (run es w) = bootOf w).
Proof.
  intros w Hr Hc. destruct (reachable_boot w Hr) as [_ Hi].
  specialize (Hi Hc). rewrite N_STEPS_val in Hi. split; [|split].
  - intros fields bootStart. rewrite statuses_rendered, Hi, Hc. reflexivity.
  - unfold step. rewrite Hc. reflexivity.
  - intros es. apply run_completed_boot, Hc.
Qed.

Lemma boot_completion_final_witness :
  let w := run (repeat Tick 7) initialWorld in
  reachable w /\ bootCompleted (app w) = true
  /\ bootOf (run [Tick; Typed (lit "x"); Tick] w) = (5, true).
Proof.
  intros w.
  assert (R : reachable w) by (exists (repeat Tick 7); reflexivity).
  assert (C : bootCompleted (app w) = true) by reflexivity.
  split; [exact R|]. split; [exact C|].
  destruct (boot_completion_final w R C) as [_ [_ H]].
  rewrite H. reflexivity.
Defined.

(** ** The listener effect in every state *)







(** ** View mode and vitals polling *)

Lemma step_completed_stays (e : Event) (w : World) :
  bootCompleted (app w) = true -> bootCompleted (app (step e w)) = true.
Proof.
  intros Hc.
  change (bootCompleted (app (step e w))) with (snd (bootOf (step e w))).
  rewrite (step_completed_boot e w Hc). exact Hc.
Qed.

Lemma shellStep_inv {Stats : Type} (e : ShellEvent Stats) (x : Shell Stats) :
  shellInv x -> shellInv (shellStep e x).
Proof.
  intros Inv. pose proof Inv as [Ht [Hf Hc]]. unfold shellInv.
  destruct e as [ev| | |r|]; unfold shellStep.
  - pose proof (step_completed_stays ev (base x)) as Hm.
    destruct (bootCompleted (app (base x))) eqn:Eb;
      destruct (bootCompleted (app (step ev (base x)))) eqn:Eb'; simpl;
      rewrite ?Eb'.
    + split; [exact Ht|]. split; [discriminate | exact Hc].
    + specialize (Hm eq_refl). discriminate.
    + destruct (Hf eq_refl) as [Hv _].
      split; [reflexivity|]. split; [discriminate|]. intros _. split.
      * left. auto.
      * apply in_or_app. right. left. reflexivity.
    + split; [exact Ht|]. split; [exact Hf | discriminate].
  - destruct (transitionArmed x) eqn:Ea; simpl; [|exact Inv].
    split; [exact Ht|]. split.
    + intros Hb. destruct (Hf Hb) as [_ [Hx _]]. congruence.
    + intros Hb. destruct (Hc Hb) as [_ Hi]. auto.
  - destruct (vitalsTimer x) eqn:Ev; simpl; [|exact Inv].
    split; [exact Ht|]. split.
    + intros Hb. rewrite Hb in Ht. discriminate.
    + intros Hb. destruct (Hc Hb) as [Hx Hi]. split; [exact Hx|].
      apply in_or_app. left. exact Hi.
  - destruct (vitalsPending x) as [|n] eqn:Ep; [exact Inv|].
    destruct r as [data|err]; simpl.
    + split; [exact Ht|]. split; [|exact Hc].
      intros Hb. destruct (Hf Hb) as [_ [_ [_ [_ Hp]]]]. discriminate.
    + split; [exact Ht|]. split.
      * intros Hb. destruct (Hf Hb) as [_ [_ [_ [_ Hp]]]]. discriminate.
      * intros Hb. destruct (Hc Hb) as [Hx Hi]. split; [exact Hx|].
        apply in_or_app. left. exact Hi.
  - simpl. exact Inv.
Qed.

Lemma shellRun_inv {Stats : Type} (es : list (ShellEvent Stats)) :
  shellInv (shellRun es (@initialShell Stats)).
Proof.
  assert (H : shellInv (@initialShell Stats)).
  { unfold shellInv. simpl. split; [reflexivity|].
    split; [auto 6 | discriminate]. }
  revert H. generalize (@initialShell Stats). unfold shellRun.
  induction es as [|e r IH]; intros x H; simpl; [exact H|].
  apply IH, shellStep_inv, H.
Qed.

(** X19: the chat view is shown only after the boot sequence has
    completed and is never left again; from the completing tick on, the
    switch is either pending on its timeout or done. *)
Theorem chat_view_only_after_boot :
  forall (Stats : Type) (es : list (ShellEvent Stats)),
    let x := shellRun es (@initialShell Stats) in
    (viewMode x = chatView -> bootCompleted (app (base x)) = true)
    /\ (bootCompleted (app (base x)) = true ->
        (transitionArmed x = true /\ viewMode x = bootView)
        \/ viewMode x = chatView)
    /\ (forall e : ShellEvent Stats,
           viewMode x = chatView -> viewMode (shellStep e x) = chatView).
Proof.
  intros Stats es x.
  pose proof (shellRun_inv es) as [Ht [Hf Hc]]. fold x in Ht, Hf, Hc.
  split; [|split].
  - intros Hv. destruct (bootCompleted (app (base x))); [reflexivity|].
    destruct (Hf eq_refl) as [Hb _]. congruence.
  - intros Hb. destruct (Hc Hb) as [[H | [_ H]] _]; auto.
  - intros e Hv.
    destruct e as [ev| | |r|]; unfold shellStep; simpl.
    + destruct (_ && _); exact Hv.
    + destruct (transitionArmed x); [reflexivity | exact Hv].
    + destruct (vitalsTimer x); exact Hv.
    + destruct (vitalsPending x); [exact Hv|]. destruct r; exact Hv.
    + exact Hv.
Qed.

(** X20: vitals are polled only after the boot sequence has completed:
    before that no [get_vital_stats] call has been made, none is
    outstanding and the stats slot is empty; the interval runs exactly
    while [bootCompleted] is set, and the first call is made at once on
    completion.  A rejected call logs the error and leaves the previous
    stats in place. *)
Theorem vitals_only_after_boot :
  forall (Stats : Type) (es : list (ShellEvent Stats)),
    let x := shellRun es (@initialShell Stats) in
    vitalsTimer x = bootCompleted (app (base x))
    /\ (bootCompleted (app (base x)) = false ->
        stats x = None /\ shellCalls x = [] /\ vitalsPending x = O)
    /\ (bootCompleted (app (base x)) = true ->
        In InvokeVitalStats (shellCalls x))
    /\ (forall err : jsstring,
           stats (shellStep (VitalsSettled (Rejected err)) x) = stats x
           /\ (vitalsPending x <> O ->
               shellCalls (shellStep (VitalsSettled (Rejected err)) x)
               = shellCalls x ++ [VitalErr err])).
Proof.
  intros Stats es x.
  pose proof (shellRun_inv es) as [Ht [Hf Hc]]. fold x in Ht, Hf, Hc.
  split; [exact Ht|]. split; [|split].
  - intros Hb. destruct (Hf Hb) as [_ [_ [H1 [H2 H3]]]]. auto.
  - intros Hb. apply Hc, Hb.
  - intros err. unfold shellStep.
    destruct (vitalsPending x); simpl; [|auto]. split; [reflexivity|].
    intros H. congruence.
Qed.

(** ** The commander store *)

Module OSStoreFacts.
Import OSStore.

Lemma acts_app {Log : Type} (a b : list (Action Log)) (st : OSState Log) :
  acts (a ++ b) st = acts b (acts a st).
Proof. unfold acts. apply fold_left_app. Qed.

Lemma acts_status {Log : Type} (l : list (Action Log)) (st : OSState Log) :
  isProcessing st = busyStatus (systemStatus st) ->
  isProcessing (acts l st) = busyStatus (systemStatus (acts l st))
  /\ systemStatus (acts l st) = lastStatus l (systemStatus st).
Proof.
  revert st. induction l as [|a r IH]; intros st H; [auto|].
  change (acts (a :: r) st) with (acts r (act a st)).
  destruct a; simpl lastStatus;
    match goal with
    | |- context [acts r (act ?a st)] => apply (IH (act a st))
    end; simpl; auto.
Qed.

Lemma acts_logs_no_clear {Log : Type} (l : list (Action Log))
    (st : OSState Log) :
  forallb (fun a => negb (isClear a)) l = true ->
  storeLogs (acts l st) = storeLogs st ++ added l.
Proof.
  revert st. induction l as [|a r IH]; intros st H.
  - simpl. symmetry. apply app_nil_r.
  - simpl in H. apply andb_true_iff in H. destruct H as [Ha Hr].
    change (acts (a :: r) st) with (acts r (act a st)).
    rewrite (IH _ Hr). destruct a; simpl; try reflexivity.
    + rewrite <- app_assoc. reflexivity.
    + discriminate.
Qed.

(** X21: the store keeps [isProcessing] in step with the status: after
    any sequence of actions on the initial store, [isProcessing] is true
    exactly when the status is THINKING or EXECUTING, and the status is
    the last one set (IDLE if none was); adding or clearing logs and
    changing the provider never disturb this. *)
Theorem store_processing_follows_status :
  forall (Log : Type) (l : list (Action Log)),
    let st := acts l (@initialStore Log) in
    isProcessing st = busyStatus (systemStatus st)
    /\ systemStatus st = lastStatus l IDLE.
Proof.
  intros Log l. apply (acts_status l initialStore). reflexivity.
Qed.

(** X22: the store's logs are the logs added since the last [clearLogs],
    in the order added: after actions ending in a [clearLogs] followed by
    actions without one, the logs are exactly those added by the latter;
    without any [clearLogs], they are the previous logs followed by the
    added ones. *)
Theorem store_logs_since_clear :
  forall (Log : Type) (pre post : list (Action Log)) (st : OSState Log),
    forallb (fun a => negb (isClear a)) post = true ->
    storeLogs (acts (pre ++ ClearLogs :: post) st) = added post
    /\ storeLogs (acts post st) = storeLogs st ++ added post.
Proof.
  intros Log pre post st H. split.
  - rewrite acts_app.
    change (acts (ClearLogs :: post) (acts pre st))
      with (acts post (clearLogs (acts pre st))).
    rewrite (acts_logs_no_clear _ _ H). reflexivity.
  - apply acts_logs_no_clear, H.
Qed.

Lemma store_logs_since_clear_witness :
  forallb (fun a => negb (@isClear nat a)) [AddLog 3%nat; SetStatus THINKING;
                                            AddLog 4%nat] = true
  /\ storeLogs (acts ([AddLog 1%nat; AddLog 2%nat]
                      ++ ClearLogs :: [AddLog 3%nat; SetStatus THINKING;
                                       AddLog 4%nat]) initialStore)
     = [3%nat; 4%nat].
Proof.
  split; [reflexivity|].
  destruct (store_logs_since_clear nat [AddLog 1%nat; AddLog 2%nat]
              [AddLog 3%nat; SetStatus THINKING; AddLog 4%nat]
              initialStore eq_refl) as [E _].
  exact E.
Defined.

End OSStoreFacts.

(** ** Deliveries without the race *)


